(** * Trend scoring and ranking of [src/pages/pages/trends.tsx], and the
      handlers of [src/pages/dashboard.tsx]

    The development embeds the computational core of the Trends page:
    [computeMargin], [generatePriceLadder], the per-record scoring done in
    the [mockData.map] callback of [fetchTrends], and the store round trip
    ([upsert] on conflict of [name], then [select] ordered by [profitScore]
    descending); and the event handlers of the dashboard page.

    Numbers.  A TypeScript [number] is an IEEE-754 binary64 value.  The
    arithmetic of the Trends page is embedded twice.

    - [B64] is binary64 itself, on the standard library's specification of
      floating-point arithmetic ([SpecFloat] at precision 53 and exponent
      bound 1024): every operation rounds to nearest, ties to even,
      overflows to an infinity, and keeps the sign of zero; there is one
      [NaN].  A decimal literal of the source is the nearest double.
      What turns on rounding, on overflow or on the sign of zero is
      stated and proved in [B64].

    - [JS] is the same arithmetic without rounding: exact rationals
      extended with [Infinity], [-Infinity] and [NaN]; it has no overflow
      and no negative zero (a zero divisor counts as [+0]).  It carries the
      statements about order and thresholds.  Those are worded so that
      rounding does not bear on them (weak inequalities, cost sums bounded
      by [range_bound], thresholds that are not rounding ties of the
      doubles concerned), but what is proved is the statement in exact
      arithmetic. *)

From Stdlib Require Import QArith Qround ZArith List String Ascii Bool.
From Stdlib Require Import Lia Lqa Permutation Sorted Setoid Morphisms.
From Stdlib Require Import Floats.SpecFloat.
From Stdlib Require DecimalString DecimalNat Finite.
Import ListNotations.

Open Scope Q_scope.

(** ** Numbers *)

Module JS.

Inductive number : Type :=
| Fin (q : Q)
| PosInf
| NegInf
| NaN.

(** Equality of numbers as values: rationals up to [Qeq]. *)
Definition num_eq (a b : number) : Prop :=
  match a, b with
  | Fin x, Fin y => x == y
  | PosInf, PosInf => True
  | NegInf, NegInf => True
  | NaN, NaN => True
  | _, _ => False
  end.

Definition num_eqb (a b : number) : bool :=
  match a, b with
  | Fin x, Fin y => Qeq_bool x y
  | PosInf, PosInf => true
  | NegInf, NegInf => true
  | NaN, NaN => true
  | _, _ => false
  end.

(** [a + b] *)
Definition add (a b : number) : number :=
  match a, b with
  | NaN, _ | _, NaN => NaN
  | Fin x, Fin y => Fin (x + y)
  | PosInf, NegInf | NegInf, PosInf => NaN
  | PosInf, _ | _, PosInf => PosInf
  | NegInf, _ | _, NegInf => NegInf
  end.

(** [a - b] *)
Definition sub (a b : number) : number :=
  match a, b with
  | NaN, _ | _, NaN => NaN
  | Fin x, Fin y => Fin (x - y)
  | PosInf, PosInf | NegInf, NegInf => NaN
  | PosInf, _ | _, NegInf => PosInf
  | NegInf, _ | _, PosInf => NegInf
  end.

(** Sign of a rational: [Eq] for zero. *)
Definition sgn (x : Q) : comparison := x ?= 0.

(** An infinity of the given sign; [NaN] for sign zero (0 * Infinity). *)
Definition inf_of (s : comparison) : number :=
  match s with
  | Gt => PosInf
  | Lt => NegInf
  | Eq => NaN
  end.

(** [a * b] *)
Definition mul (a b : number) : number :=
  match a, b with
  | NaN, _ | _, NaN => NaN
  | Fin x, Fin y => Fin (x * y)
  | Fin x, PosInf | PosInf, Fin x => inf_of (sgn x)
  | Fin x, NegInf | NegInf, Fin x => inf_of (CompOpp (sgn x))
  | PosInf, PosInf | NegInf, NegInf => PosInf
  | PosInf, NegInf | NegInf, PosInf => NegInf
  end.

(** [a / b].  A finite numerator over zero gives the infinity of the
    numerator's sign, [0 / 0] gives [NaN]. *)
Definition div (a b : number) : number :=
  match a, b with
  | NaN, _ | _, NaN => NaN
  | Fin x, Fin y =>
      if Qeq_bool y 0 then inf_of (sgn x) else Fin (x / y)
  | Fin _, PosInf | Fin _, NegInf => Fin 0
  | PosInf, Fin y => if Qle_bool 0 y then PosInf else NegInf
  | NegInf, Fin y => if Qle_bool 0 y then NegInf else PosInf
  | _, _ => NaN
  end.

(** [Math.round]: nearest integer, a tie going up. *)
Definition round_half_up (x : Q) : Z := Qfloor (x + (1 # 2)).

Definition Math_round (a : number) : number :=
  match a with
  | Fin x => Fin (inject_Z (round_half_up x))
  | other => other
  end.

(** [Math.min(a, b)] *)
Definition Math_min (a b : number) : number :=
  match a, b with
  | NaN, _ | _, NaN => NaN
  | NegInf, _ | _, NegInf => NegInf
  | PosInf, other | other, PosInf => other
  | Fin x, Fin y => if Qle_bool x y then Fin x else Fin y
  end.

(** [Math.max(a, b)] *)
Definition Math_max (a b : number) : number :=
  match a, b with
  | NaN, _ | _, NaN => NaN
  | PosInf, _ | _, PosInf => PosInf
  | NegInf, other | other, NegInf => other
  | Fin x, Fin y => if Qle_bool x y then Fin y else Fin x
  end.

(** [a < b] and [a <= b] as the language compares numbers: anything
    against [NaN] is false. *)
Definition ltb (a b : number) : bool :=
  match a, b with
  | NaN, _ | _, NaN => false
  | _, NegInf => false
  | NegInf, _ => true
  | PosInf, _ => false
  | _, PosInf => true
  | Fin x, Fin y => negb (Qle_bool y x)
  end.

Definition leb (a b : number) : bool :=
  match a, b with
  | NaN, _ | _, NaN => false
  | NegInf, _ => true
  | _, NegInf => false
  | _, PosInf => true
  | PosInf, _ => false
  | Fin x, Fin y => Qle_bool x y
  end.

End JS.

Import JS.

Declare Scope js_scope.
Delimit Scope js_scope with js.
Infix "+" := add : js_scope.
Infix "-" := sub : js_scope.
Infix "*" := mul : js_scope.
Infix "/" := div : js_scope.
Infix "=~" := num_eq (at level 70, no associativity) : js_scope.

(** ** Types of the page *)

Inductive Platform : Type := tiktok | etsy | gumroad.

(** [Omit<Trend, 'id' | 'createdAt'>] as the mock literals populate it. *)
Module Raw.
Record t : Type := mk {
  name : string;
  platform : Platform;
  velocity : number;
  cogs : number;
  fees : number;
  shipping : number
}.
End Raw.

(** [interface Trend] *)
Record Trend : Type := mkTrend {
  id : string;
  name : string;
  platform : Platform;
  velocity : number;
  profitScore : number;
  priceLadder : list number;
  cogs : number;
  fees : number;
  shipping : number;
  margin : number;
  createdAt : string
}.

(** ** Utility: profit floor *)

Definition computeMargin (price cogs fees shipping : number) : number :=
  (((price - cogs - fees - shipping) / price) * Fin 100)%js.

(** The rounding applied to each rung: [p => Math.round(p * 100) / 100]. *)
Definition round2 (p : number) : number :=
  (Math_round (p * Fin 100) / Fin 100)%js.

Definition generatePriceLadder (cogs fees shipping : number) : list number :=
  let base := (cogs + fees + shipping)%js in
  map round2 [(base * Fin (13 # 10))%js; (base * Fin (16 # 10))%js; (base * Fin 2)%js].

(** ** Scoring of one record (the callback of [mockData.map]) *)

(** [ladder[0]]: an index out of range reads [undefined], which arithmetic
    turns into [NaN]. *)
Definition index0 (ladder : list number) : number := nth 0 ladder NaN.

(** [Math.min(100, Math.round(d.velocity * 0.2 + margin * 2))] *)
Definition scoreOf (velocity margin : number) : number :=
  Math_min (Fin 100) (Math_round (velocity * Fin (2 # 10) + margin * Fin 2)%js).

(** [`mock-${idx}`] *)
Definition mock_id (idx : nat) : string :=
  ("mock-" ++ DecimalString.NilZero.string_of_uint (Nat.to_uint idx))%string.

(** The callback: the fields of [d] are spread into a new object, then the
    computed fields are set.  [now] is the reading of
    [new Date().toISOString()]. *)
Definition enrich (now : string) (idx : nat) (d : Raw.t) : Trend :=
  let ladder := generatePriceLadder (Raw.cogs d) (Raw.fees d) (Raw.shipping d) in
  let margin := computeMargin (index0 ladder) (Raw.cogs d) (Raw.fees d) (Raw.shipping d) in
  {| name := Raw.name d;
     platform := Raw.platform d;
     cogs := Raw.cogs d;
     fees := Raw.fees d;
     shipping := Raw.shipping d;
     id := mock_id idx;
     velocity := Raw.velocity d;
     profitScore := scoreOf (Raw.velocity d) margin;
     priceLadder := ladder;
     margin := margin;
     createdAt := now |}.

Fixpoint enrich_from (clock : nat -> string) (idx : nat) (ds : list Raw.t) : list Trend :=
  match ds with
  | [] => []
  | d :: rest => enrich (clock idx) idx d :: enrich_from clock (S idx) rest
  end.

(** [mockData.map((d, idx) => ...)]; [clock idx] is the reading of
    [new Date().toISOString()] taken while record [idx] is built. *)
Definition enrichAll (clock : nat -> string) (ds : list Raw.t) : list Trend :=
  enrich_from clock 0 ds.

Definition mockData : list Raw.t :=
  [ Raw.mk "#LEDcollars" tiktok (Fin 450) (Fin (25 # 10)) (Fin (8 # 10)) (Fin (12 # 10));
    Raw.mk "#tinyhats" etsy (Fin 310) (Fin (18 # 10)) (Fin (6 # 10)) (Fin 1);
    Raw.mk "#AIstickers" gumroad (Fin 280) (Fin (5 # 10)) (Fin (3 # 10)) (Fin (2 # 10)) ].

(** ** The store round trip

    The [trends] table is a list of rows in storage order.  [upsert] with
    [onConflict: 'name'] needs [name] to be unique in the table; a row of
    the batch whose name is stored replaces that row, any other row is
    added.  The store refuses a batch that names one trend twice, so the
    statements about [upsert] take the names of a batch to be distinct.
    A failed round trip ([data] being [null]) is not modelled. *)

Definition Table : Type := list Trend.

Definition same_name (r x : Trend) : bool := String.eqb (name x) (name r).

Definition upsert1 (r : Trend) (tbl : Table) : Table :=
  if existsb (same_name r) tbl
  then map (fun x => if same_name r x then r else x) tbl
  else tbl ++ [r].

Definition upsert (rows : list Trend) (tbl : Table) : Table :=
  fold_left (fun t r => upsert1 r t) rows tbl.

(** The order of a numeric column: [-Infinity] below every rational,
    [Infinity] above, [NaN] above everything and equal to itself. *)
Definition col_leb (a b : number) : bool :=
  match a, b with
  | _, NaN => true
  | NaN, _ => false
  | _, _ => JS.leb a b
  end.

(** [x] may stand before [y] under [order('profitScore', { ascending: false })]. *)
Definition desc_profitScore (x y : Trend) : bool :=
  col_leb (profitScore y) (profitScore x).

Definition desc (x y : Trend) : Prop := desc_profitScore x y = true.

(** What the query promises: the rows of the table, highest score first.
    Nothing is said about rows of equal score. *)
Definition ordered_select (tbl : Table) (data : list Trend) : Prop :=
  Permutation tbl data /\ StronglySorted desc data.

(** One store that keeps the promise: a stable sort of the storage order. *)
Fixpoint insert_desc (r : Trend) (l : list Trend) : list Trend :=
  match l with
  | [] => [r]
  | y :: l' => if desc_profitScore r y then r :: l else y :: insert_desc r l'
  end.

Definition select_order_desc (tbl : Table) : list Trend :=
  fold_right insert_desc [] tbl.

(** ** [fetchTrends]: score the batch, persist it, read the ranking back.
    The pair is the table afterwards and the [data] handed to [setTrends]. *)
Definition reconcile (tbl : Table) (enriched : list Trend) : Table * list Trend :=
  let tbl' := upsert enriched tbl in
  (tbl', select_order_desc tbl').

Definition fetchTrends (clock : nat -> string) (tbl : Table) : Table * list Trend :=
  reconcile tbl (enrichAll clock mockData).

(** ** The scoring rule as the specification words it *)

Definition clamp (x lo hi : number) : number := Math_max lo (Math_min hi x).

Definition spec_profitScore (velocity margin : number) : number :=
  clamp (Math_round (velocity * Fin (2 # 10) + margin * Fin 2)%js) (Fin 0) (Fin 100).

(** Ties in ascending order of name, as the specification words it. *)
Definition name_ltb (a b : string) : bool :=
  match String.compare a b with Lt => true | _ => false end.

Fixpoint ties_by_name (l : list Trend) : bool :=
  match l with
  | x :: ((y :: _) as rest) =>
      (if num_eqb (profitScore x) (profitScore y) then name_ltb (name x) (name y) else true)
      && ties_by_name rest
  | _ => true
  end.





(** The rational behind one rung: [Math.round(base * k * 100) / 100]. *)
Definition rung (k base : Q) : Q :=
  inject_Z (round_half_up (base * k * 100)) / 100.

(** A scored record carries the fields of the raw signal it was built from. *)
Definition carries (d : Raw.t) (t : Trend) : Prop :=
  name t = Raw.name d /\ platform t = Raw.platform d
  /\ velocity t = Raw.velocity d /\ cogs t = Raw.cogs d
  /\ fees t = Raw.fees d /\ shipping t = Raw.shipping d.

(** In exact arithmetic the margin is a function of the break-even sum
    alone. *)
Definition margin_of_base (base : number) : number :=
  let price := round2 (base * Fin (13 # 10))%js in
  (((price - base) / price) * Fin 100)%js.


(** * The dashboard page of [src/pages/dashboard.tsx]

    The handlers of the page are embedded as functions from the state of
    the component and the answers of the outside world (the ids drawn by
    [uuid()], the store, the upload bucket, the chat completion) to the
    state afterwards and the requests sent, in order.  An awaited call
    that rejects makes the handler stop where it is; the store and the
    bucket answer with [data] or [null] and do not reject. *)

Module Dashboard.

(** A string of the language: a sequence of UTF-16 code units. *)
Definition jsstring : Type := list N.

(** A literal of the source, all of whose characters are ASCII. *)
Definition lit (s : string) : jsstring :=
  map N_of_ascii (list_ascii_of_string s).

(** The code units [String.prototype.trim] strips: white space and line
    terminators of the language. *)
Definition is_space (c : N) : bool :=
  ((9 <=? c) && (c <=? 13) || (c =? 32) || (c =? 160) || (c =? 5760)
   || (8192 <=? c) && (c <=? 8202) || (c =? 8232) || (c =? 8233)
   || (c =? 8239) || (c =? 8287) || (c =? 12288) || (c =? 65279))%N.

Fixpoint trim_start (s : jsstring) : jsstring :=
  match s with
  | c :: rest => if is_space c then trim_start rest else s
  | [] => []
  end.

Definition trim (s : jsstring) : jsstring :=
  rev (trim_start (rev (trim_start s))).

(** Truthiness of a string: the empty string is the only falsy one. *)
Definition truthy (s : jsstring) : bool :=
  match s with [] => false | _ :: _ => true end.

(** [interface Goal] and [interface CalendarEvent] *)
Module Goal.
Record t : Type := mk {
  id : jsstring;
  text : jsstring;
  created_at : jsstring;
  screenshots : list jsstring
}.
End Goal.

Module CalendarEvent.
Record t : Type := mk {
  id : jsstring;
  date : jsstring;
  amount : number;
  source : jsstring
}.
End CalendarEvent.

(** A file picked in the input, as its bytes. *)
Definition File : Type := list N.

(** The state of the component, one field per [useState]. *)
Record State : Type := mkState {
  goal : jsstring;
  goals : list Goal.t;
  events : list CalendarEvent.t;
  coachMessage : jsstring;
  uploading : bool;
  screenshots : list jsstring
}.

Definition setGoal (v : jsstring) (st : State) : State :=
  mkState v (goals st) (events st) (coachMessage st) (uploading st) (screenshots st).
Definition setGoals (v : list Goal.t) (st : State) : State :=
  mkState (goal st) v (events st) (coachMessage st) (uploading st) (screenshots st).
Definition setEvents (v : list CalendarEvent.t) (st : State) : State :=
  mkState (goal st) (goals st) v (coachMessage st) (uploading st) (screenshots st).
Definition setCoachMessage (v : jsstring) (st : State) : State :=
  mkState (goal st) (goals st) (events st) v (uploading st) (screenshots st).
Definition setUploading (v : bool) (st : State) : State :=
  mkState (goal st) (goals st) (events st) (coachMessage st) v (screenshots st).
Definition setScreenshots (v : list jsstring) (st : State) : State :=
  mkState (goal st) (goals st) (events st) (coachMessage st) (uploading st) v.

(** What the page sends out. *)
Inductive request : Type :=
| SelectGoals
| SelectCalendarEvents
| InsertGoal (id text : jsstring) (screenshots : list jsstring)
| InsertCalendarEvent (id date : jsstring) (amount : number) (source : jsstring)
| ChatCompletion (model role content : jsstring) (max_tokens : N)
| UploadScreenshot (path : jsstring) (file : File).

(** The part of a chat completion the page reads. *)
Record Message : Type := { content : option jsstring }.
Record Choice : Type := { message : option Message }.
Record Completion : Type := { choices : list Choice }.

(** How a handler ends: the state, the requests sent, and whether it
    stopped on a rejected call. *)
Record Outcome : Type := mkOutcome {
  after : State;
  sent : list request;
  threw : bool
}.

Definition fetchGoals (data : option (list Goal.t)) (st : State) : Outcome :=
  mkOutcome (match data with Some d => setGoals d st | None => st end)
            [SelectGoals] false.

Definition fetchCalendarEvents (data : option (list CalendarEvent.t)) (st : State) : Outcome :=
  mkOutcome (match data with Some d => setEvents d st | None => st end)
            [SelectCalendarEvents] false.

(** [res.choices[0]?.message?.content || ''] *)
Definition first_content (res : Completion) : jsstring :=
  match choices res with
  | [] => []
  | c :: _ =>
      match message c with
      | None => []
      | Some m =>
          match content m with
          | None => []
          | Some s => if truthy s then s else []
          end
      end
  end.

Definition prompt_of (text : jsstring) : jsstring :=
  lit "User goal: " ++ text
  ++ lit ".  Give a 1-sentence motivational pep talk + 3 micro-tasks.".

(** [res] is [None] when the awaited completion rejects. *)
Definition generateCoachMessage (text : jsstring) (res : option Completion)
    (st : State) : Outcome :=
  let req := ChatCompletion (lit "gpt-4o-mini") (lit "user") (prompt_of text) 60 in
  match res with
  | None => mkOutcome st [req] true
  | Some r => mkOutcome (setCoachMessage (first_content r) st) [req] false
  end.

(** [id] is the value of [uuid()], [res] the answer of the completion and
    [data] the answer of the read issued by the closing [fetchGoals()]. *)
Definition handleSaveGoal (id : jsstring) (res : option Completion)
    (data : option (list Goal.t)) (st : State) : Outcome :=
  if negb (truthy (trim (goal st))) then mkOutcome st [] false
  else
    let ins := InsertGoal id (goal st) (screenshots st) in
    let coach := generateCoachMessage (goal st) res st in
    if threw coach then mkOutcome (after coach) (ins :: sent coach) true
    else
      let st1 := setScreenshots [] (setGoal [] (after coach)) in
      let read := fetchGoals data st1 in
      mkOutcome (after read) (ins :: sent coach ++ sent read) false.

(** The body of the [for] loop of [handleFileUpload] from index [i] on:
    [uuids i] is the name drawn for file [i], [answer i] the [data.path]
    of its upload or [None] for [data] being [null]. *)
Fixpoint upload_from (uuids : nat -> jsstring) (answer : nat -> option jsstring)
    (i : nat) (files : list File) (urls : list jsstring) (out : list request)
  : list jsstring * list request :=
  match files with
  | [] => (urls, out)
  | f :: rest =>
      upload_from uuids answer (S i) rest
        (match answer i with Some path => urls ++ [path] | None => urls end)
        (out ++ [UploadScreenshot (uuids i) f])
  end.

(** [files] is [None] for [e.target.files] being [null]. *)
Definition handleFileUpload (files : option (list File)) (uuids : nat -> jsstring)
    (answer : nat -> option jsstring) (st : State) : Outcome :=
  match files with
  | None => mkOutcome st [] false
  | Some fs =>
      let '(urls, out) := upload_from uuids answer 0 fs [] [] in
      mkOutcome (setUploading false (setScreenshots urls (setUploading true st))) out false
  end.

Definition addCalendarEvent (id now : jsstring) (amount : number) (source : jsstring)
    (data : option (list CalendarEvent.t)) (st : State) : Outcome :=
  let read := fetchCalendarEvents data st in
  mkOutcome (after read) (InsertCalendarEvent id now amount source :: sent read) false.

(** The uploads that succeeded, in the order of the files. *)
Fixpoint successes (answer : nat -> option jsstring) (i n : nat) : list jsstring :=
  match n with
  | O => []
  | S n' =>
      match answer i with
      | Some path => path :: successes answer (S i) n'
      | None => successes answer (S i) n'
      end
  end.

(** One upload request per file, in the order of the files. *)
Fixpoint upload_requests (uuids : nat -> jsstring) (i : nat) (files : list File)
  : list request :=
  match files with
  | [] => []
  | f :: rest => UploadScreenshot (uuids i) f :: upload_requests uuids (S i) rest
  end.

End Dashboard.

(** * Binary64

    The numbers of the page as doubles; the operations are those of
    [SpecFloat] at precision 53 and exponent bound 1024. *)

Module B64.

Local Open Scope Z_scope.

Definition prec : Z := 53.
Definition emax : Z := 1024.

(** A double is a [spec_float]: a signed zero, a signed infinity, [NaN], or
    [(-1)^s * m * 2^e].  The type also has triples [(s, m, e)] out of the
    format's bounds; the operations never return one, and what is proved
    for every [spec_float] holds of the doubles among them. *)
Definition double : Type := spec_float.

Definition add : double -> double -> double := SFadd prec emax.
Definition sub : double -> double -> double := SFsub prec emax.
Definition mul : double -> double -> double := SFmul prec emax.
Definition div : double -> double -> double := SFdiv prec emax.

(** [a < b] and [a <= b]; false when an operand is [NaN]. *)
Definition ltb : double -> double -> bool := SFltb.
Definition leb : double -> double -> bool := SFleb.

(** The double nearest to an integer, and the double nearest to the
    decimal fraction [n / d] (for [n] and [d] below 2^53): the value of a
    numeric literal of the source. *)
Definition of_Z (n : Z) : double := binary_normalize prec emax n 0 false.
Definition dec (n : Z) (d : positive) : double := div (of_Z n) (of_Z (Zpos d)).

(** [floor(x + 1/2)] of the finite double [(-1)^s * m * 2^e], exactly. *)
Definition round_Z (s : bool) (m : positive) (e : Z) : Z :=
  if 0 <=? e then cond_Zopp s (Zpos m * 2 ^ e)
  else (cond_Zopp s (2 * Zpos m) + 2 ^ (- e)) / (2 * 2 ^ (- e)).

(** [Math.round]: the nearest integer, a tie going up; a result of zero
    keeps the sign of the argument; infinities and [NaN] pass through. *)
Definition Math_round (x : double) : double :=
  match x with
  | S754_finite s m e =>
      let n := round_Z s m e in
      if n =? 0 then S754_zero s else of_Z n
  | _ => x
  end.

Definition is_neg_zero (x : double) : bool :=
  match x with S754_zero true => true | _ => false end.

(** [Math.min(a, b)]: [NaN] when an operand is [NaN]; [-0] is below [+0]. *)
Definition Math_min (a b : double) : double :=
  match SFcompare a b with
  | None => S754_nan
  | Some Lt => a
  | Some Gt => b
  | Some Eq => if is_neg_zero a then a else b
  end.

Definition computeMargin (price cogs fees shipping : double) : double :=
  mul (div (sub (sub (sub price cogs) fees) shipping) price) (of_Z 100).

Definition round2 (p : double) : double :=
  div (Math_round (mul p (of_Z 100))) (of_Z 100).

Definition generatePriceLadder (cogs fees shipping : double) : list double :=
  let base := add (add cogs fees) shipping in
  map round2 [mul base (dec 13 10); mul base (dec 16 10); mul base (of_Z 2)].

Definition index0 (ladder : list double) : double := nth 0 ladder S754_nan.

Definition scoreOf (velocity margin : double) : double :=
  Math_min (of_Z 100)
    (Math_round (add (mul velocity (dec 2 10)) (mul margin (of_Z 2)))).

(** The three fields the callback computes. *)
Record Computed : Type := {
  priceLadder : list double;
  margin : double;
  profitScore : double
}.

Definition enrich (velocity cogs fees shipping : double) : Computed :=
  let ladder := generatePriceLadder cogs fees shipping in
  let margin := computeMargin (index0 ladder) cogs fees shipping in
  {| priceLadder := ladder;
     margin := margin;
     profitScore := scoreOf velocity margin |}.

(** A zero or a finite nonzero double: neither an infinity nor [NaN]. *)
Definition is_num (x : double) : bool :=
  match x with
  | S754_zero _ | S754_finite _ _ _ => true
  | _ => false
  end.

(** [x >= 0]: a zero of either sign, a positive double or [Infinity]. *)
Definition nonneg (x : double) : bool := leb (of_Z 0) x.


(** The sign bit of a double that is not [NaN]. *)
Definition has_sign (s : bool) (x : double) : bool :=
  match x with
  | S754_zero s' | S754_finite s' _ _ | S754_infinity s' => Bool.eqb s s'
  | S754_nan => false
  end.

(** The double 100 = 7036874417766400 * 2^-46. *)
Definition hundred : double := S754_finite false 7036874417766400 (-46).

(** The rational a double stands for. *)
Definition to_Q (x : double) : option Q :=
  match x with
  | S754_zero _ => Some 0%Q
  | S754_finite s m e =>
      Some (if 0 <=? e then inject_Z (cond_Zopp s (Zpos m * 2 ^ e))
            else Qmake (cond_Zopp s (Zpos m)) (Z.to_pos (2 ^ (- e))))
  | _ => None
  end.

End B64.


(** * Properties *)

(** ** Numbers: value equality and the operations *)

Section NumberFacts.

Local Open Scope js_scope.

Lemma num_eq_refl (a : number) : a =~ a.
Proof. destruct a; simpl; auto. reflexivity. Qed.

Lemma num_eq_sym (a b : number) : a =~ b -> b =~ a.
Proof. destruct a, b; simpl; auto. intros H; symmetry; exact H. Qed.

Lemma num_eq_trans (a b c : number) : a =~ b -> b =~ c -> a =~ c.
Proof.
  destruct a, b, c; simpl; auto; try contradiction.
  intros H1 H2; rewrite H1; exact H2.
Qed.

#[global] Instance num_eq_equiv : Equivalence num_eq.
Proof.
  split; [exact num_eq_refl | exact num_eq_sym | exact num_eq_trans].
Qed.

Lemma num_eqb_spec (a b : number) : num_eqb a b = true <-> a =~ b.
Proof.
  destruct a, b; simpl; try apply Qeq_bool_iff; intuition discriminate.
Qed.

Lemma sgn_compat (x y : Q) : (x == y)%Q -> sgn x = sgn y.
Proof. intros H; unfold sgn; rewrite H; reflexivity. Qed.

Lemma Qeq_bool_compat (x y z : Q) : (x == y)%Q -> Qeq_bool x z = Qeq_bool y z.
Proof.
  intros H.
  destruct (Qeq_bool y z) eqn:E.
  - apply Qeq_bool_iff. rewrite H. apply Qeq_bool_iff; exact E.
  - destruct (Qeq_bool x z) eqn:E'; auto.
    apply Qeq_bool_iff in E'. rewrite H in E'.
    apply Qeq_bool_iff in E'. congruence.
Qed.

Lemma Qle_bool_compat (x y u v : Q) :
  (x == y)%Q -> (u == v)%Q -> Qle_bool x u = Qle_bool y v.
Proof.
  intros H1 H2.
  destruct (Qle_bool y v) eqn:E.
  - apply Qle_bool_iff. rewrite H1, H2. apply Qle_bool_iff; exact E.
  - destruct (Qle_bool x u) eqn:E'; auto.
    apply Qle_bool_iff in E'. rewrite H1, H2 in E'.
    apply Qle_bool_iff in E'. congruence.
Qed.

#[global] Instance add_proper : Proper (num_eq ==> num_eq ==> num_eq) add.
Proof.
  intros a a' Ha b b' Hb.
  destruct a, a'; simpl in Ha; try contradiction;
    destruct b, b'; simpl in Hb; try contradiction; simpl; auto.
  rewrite Ha, Hb; reflexivity.
Qed.

#[global] Instance sub_proper : Proper (num_eq ==> num_eq ==> num_eq) sub.
Proof.
  intros a a' Ha b b' Hb.
  destruct a, a'; simpl in Ha; try contradiction;
    destruct b, b'; simpl in Hb; try contradiction; simpl; auto.
  rewrite Ha, Hb; reflexivity.
Qed.

#[global] Instance mul_proper : Proper (num_eq ==> num_eq ==> num_eq) mul.
Proof.
  intros a a' Ha b b' Hb.
  destruct a, a'; simpl in Ha; try contradiction;
    destruct b, b'; simpl in Hb; try contradiction; simpl; auto;
    try (rewrite Ha, Hb; reflexivity);
    try (rewrite (sgn_compat _ _ Ha); apply num_eq_refl);
    try (rewrite (sgn_compat _ _ Hb); apply num_eq_refl).
Qed.

#[global] Instance div_proper : Proper (num_eq ==> num_eq ==> num_eq) div.
Proof.
  intros a a' Ha b b' Hb.
  destruct a, a'; simpl in Ha; try contradiction;
    destruct b, b'; simpl in Hb; try contradiction; simpl; auto;
    try reflexivity.
  - rewrite (Qeq_bool_compat _ _ 0 Hb), (sgn_compat _ _ Ha).
    destruct (Qeq_bool q2 0); [apply num_eq_refl | simpl; rewrite Ha, Hb; reflexivity].
  - rewrite (Qle_bool_compat 0 0 _ _ (Qeq_refl 0) Hb). apply num_eq_refl.
  - rewrite (Qle_bool_compat 0 0 _ _ (Qeq_refl 0) Hb). apply num_eq_refl.
Qed.

Lemma round_half_up_compat (x y : Q) : (x == y)%Q -> round_half_up x = round_half_up y.
Proof. intros H; unfold round_half_up; rewrite H; reflexivity. Qed.

#[global] Instance Math_round_proper : Proper (num_eq ==> num_eq) Math_round.
Proof.
  intros a a' Ha.
  destruct a, a'; simpl in Ha; try contradiction; simpl; auto.
  rewrite (round_half_up_compat _ _ Ha); reflexivity.
Qed.

#[global] Instance Math_min_proper : Proper (num_eq ==> num_eq ==> num_eq) Math_min.
Proof.
  intros a a' Ha b b' Hb.
  destruct a, a'; simpl in Ha; try contradiction;
    destruct b, b'; simpl in Hb; try contradiction; simpl; auto.
  rewrite (Qle_bool_compat _ _ _ _ Ha Hb).
  destruct (Qle_bool q0 q2); simpl; auto.
Qed.





Lemma round_half_up_nonneg (x : Q) : (0 <= x)%Q -> (0 <= round_half_up x)%Z.
Proof.
  intros H. change 0%Z with (Qfloor 0).
  apply Qfloor_resp_le; lra.
Qed.

Lemma round2_Fin (x : Q) :
  round2 (Fin x) = Fin (inject_Z (round_half_up (x * 100)) / 100).
Proof. reflexivity. Qed.

End NumberFacts.

(** ** Binary64: sign and shape of results *)

Section B64Facts.

Import B64.

Lemma shr_1_nonneg (mrs : shr_record) :
  (0 <= shr_m mrs)%Z -> (0 <= shr_m (shr_1 mrs))%Z.
Proof.
  destruct mrs as [m r s]. destruct m as [| p | p]; simpl; intros H;
    try (destruct p; simpl; lia). lia.
Qed.

Lemma iter_shr_1_nonneg (p : positive) :
  forall mrs, (0 <= shr_m mrs)%Z -> (0 <= shr_m (iter_pos shr_1 p mrs))%Z.
Proof.
  induction p as [p IH | p IH |]; intros mrs H; simpl.
  - apply IH, IH, shr_1_nonneg, H.
  - apply IH, IH, H.
  - apply shr_1_nonneg, H.
Qed.

Lemma shr_nonneg (mrs : shr_record) (e n : Z) :
  (0 <= shr_m mrs)%Z -> (0 <= shr_m (fst (shr mrs e n)))%Z.
Proof.
  intros H. destruct n; simpl; try exact H. apply iter_shr_1_nonneg, H.
Qed.

Lemma shr_record_of_loc_m (m : Z) (l : location) : shr_m (shr_record_of_loc m l) = m.
Proof. destruct l as [| []]; reflexivity. Qed.

Lemma shr_fexp_nonneg (m e : Z) (l : location) :
  (0 <= m)%Z -> (0 <= shr_m (fst (shr_fexp prec emax m e l)))%Z.
Proof.
  intros H. unfold shr_fexp. apply shr_nonneg. rewrite shr_record_of_loc_m. exact H.
Qed.

Lemma round_nearest_even_nonneg (m : Z) (l : location) :
  (0 <= m)%Z -> (0 <= round_nearest_even m l)%Z.
Proof.
  intros H. destruct l as [| []]; simpl; try exact H; try lia.
  destruct (Z.even m); lia.
Qed.

Lemma binary_round_aux_sign (sx : bool) (mx ex : Z) (lx : location) :
  (0 <= mx)%Z -> has_sign sx (binary_round_aux prec emax sx mx ex lx) = true.
Proof.
  intros H. unfold binary_round_aux.
  pose proof (shr_fexp_nonneg mx ex lx H) as H1.
  destruct (shr_fexp prec emax mx ex lx) as [mrs' e']. simpl in H1.
  pose proof (shr_fexp_nonneg _ e' loc_Exact
                (round_nearest_even_nonneg _ (loc_of_shr_record mrs') H1)) as H2.
  destruct (shr_fexp prec emax (round_nearest_even (shr_m mrs') (loc_of_shr_record mrs')) e' loc_Exact)
    as [mrs'' e'']. simpl in H2.
  destruct (shr_m mrs'') as [| m | m].
  - simpl. apply eqb_reflx.
  - destruct (e'' <=? emax - prec)%Z; simpl; apply eqb_reflx.
  - lia.
Qed.

Lemma binary_round_sign (sx : bool) (mx : positive) (ex : Z) :
  has_sign sx (binary_round prec emax sx mx ex) = true.
Proof.
  unfold binary_round.
  destruct (shl_align mx ex (fexp prec emax (Z.pos (digits2_pos mx) + ex))) as [mz ez].
  apply binary_round_aux_sign. lia.
Qed.


Lemma has_sign_not_nan (s : bool) (x : double) : has_sign s x = true -> x <> S754_nan.
Proof. intros H E. subst x. discriminate. Qed.

Lemma mul_finite_sign (s1 s2 : bool) (m1 m2 : positive) (e1 e2 : Z) :
  has_sign (xorb s1 s2) (mul (S754_finite s1 m1 e1) (S754_finite s2 m2 e2)) = true.
Proof. unfold mul, SFmul. apply binary_round_aux_sign. lia. Qed.

Lemma div_finite_sign (s1 s2 : bool) (m1 m2 : positive) (e1 e2 : Z) :
  has_sign (xorb s1 s2) (div (S754_finite s1 m1 e1) (S754_finite s2 m2 e2)) = true.
Proof.
  unfold div, SFdiv.
  destruct (SFdiv_core_binary prec emax (Z.pos m1) e1 (Z.pos m2) e2) as [[mz ez] lz] eqn:E.
  apply binary_round_aux_sign.
  unfold SFdiv_core_binary in E.
  match type of E with
  | (let '(q, r) := Z.div_eucl ?n _ in _) = _ => set (m' := n) in *
  end.
  assert (Hm : (0 <= m')%Z).
  { unfold m'.
    match goal with |- (0 <= match ?x with _ => _ end)%Z => destruct x end;
      try lia. apply Z.shiftl_nonneg. lia. }
  pose proof (Z_div_mod m' (Z.pos m2) eq_refl) as Hd.
  destruct (Z.div_eucl m' (Z.pos m2)) as [q r]. injection E as <- _ _.
  destruct Hd as [Hq Hr]. nia.
Qed.

Lemma binary_normalize_not_nan (m e : Z) (sz : bool) :
  binary_normalize prec emax m e sz <> S754_nan.
Proof.
  destruct m as [| p | p]; simpl; [discriminate | |];
    eapply has_sign_not_nan; apply binary_round_sign.
Qed.

Lemma add_pos_sign (m1 m2 : positive) (e1 e2 : Z) :
  has_sign false (add (S754_finite false m1 e1) (S754_finite false m2 e2)) = true.
Proof. unfold add, SFadd. simpl. apply binary_round_sign. Qed.

Lemma of_Z_pos_sign (p : positive) : has_sign false (of_Z (Zpos p)) = true.
Proof. unfold of_Z. simpl. apply binary_round_sign. Qed.

Lemma of_Z_neg_sign (p : positive) : has_sign true (of_Z (Zneg p)) = true.
Proof. unfold of_Z. simpl. apply binary_round_sign. Qed.

Lemma sub_not_nan (x y : double) :
  x <> S754_nan -> is_num y = true -> sub x y <> S754_nan.
Proof.
  intros Hx Hy.
  destruct x as [s1 | s1 | | s1 m1 e1]; [| | congruence |];
    destruct y as [s2 | s2 | | s2 m2 e2]; try discriminate; simpl;
    try (destruct s1, s2; discriminate).
  apply binary_normalize_not_nan.
Qed.

Lemma computeMargin_not_nan (price cogs fees shipping : double) :
  (exists s m e, price = S754_finite s m e) ->
  is_num cogs = true -> is_num fees = true -> is_num shipping = true ->
  computeMargin price cogs fees shipping <> S754_nan.
Proof.
  intros (s & m & e & ->) Hc Hf Hs. unfold computeMargin.
  assert (Hn : sub (sub (sub (S754_finite s m e) cogs) fees) shipping <> S754_nan).
  { repeat apply sub_not_nan; try assumption. discriminate. }
  set (n := sub (sub (sub (S754_finite s m e) cogs) fees) shipping) in *.
  assert (Hq : exists sq, has_sign sq (div n (S754_finite s m e)) = true).
  { destruct n as [s1 | s1 | | s1 m1 e1]; [| | congruence |];
      exists (xorb s1 s); [simpl; apply eqb_reflx | simpl; apply eqb_reflx |].
    apply div_finite_sign. }
  destruct Hq as (sq & Hq).
  assert (H100 : of_Z 100 = S754_finite false 7036874417766400 (-46)) by (vm_compute; reflexivity).
  rewrite H100.
  destruct (div n (S754_finite s m e)) as [s1 | s1 | | s1 m1 e1]; try discriminate.
  eapply has_sign_not_nan. apply mul_finite_sign.
Qed.

Lemma nonneg_cases (x : double) :
  nonneg x = true <->
  (exists s, x = S754_zero s) \/ (exists m e, x = S754_finite false m e) \/ x = S754_infinity false.
Proof.
  unfold nonneg, leb, SFleb. change (of_Z 0) with (S754_zero false).
  destruct x as [s | s | | s m e]; simpl.
  - split; [intros _; left; eexists; reflexivity | reflexivity].
  - destruct s; simpl; split; try discriminate.
    + intros [(s & H) | [(m & e & H) | H]]; discriminate.
    + intros _. right. right. reflexivity.
    + reflexivity.
  - split; [discriminate |].
    intros [(s & H) | [(m & e & H) | H]]; discriminate.
  - destruct s; simpl; split; try discriminate.
    + intros [(s & H) | [(m' & e' & H) | H]]; discriminate.
    + intros _. right. left. eexists _, _. reflexivity.
    + reflexivity.
Qed.

Lemma has_sign_false_nonneg (x : double) : has_sign false x = true -> nonneg x = true.
Proof.
  intros H. apply nonneg_cases.
  destruct x as [s | s | | s m e]; simpl in H; try discriminate;
    destruct s; try discriminate.
  - left. eexists; reflexivity.
  - right. right. reflexivity.
  - right. left. eexists _, _; reflexivity.
Qed.

Lemma mul_pos_nonneg (x : double) (m : positive) (e : Z) :
  nonneg x = true -> nonneg (mul x (S754_finite false m e)) = true.
Proof.
  intros H. apply nonneg_cases in H.
  destruct H as [(s & ->) | [(m' & e' & ->) | ->]].
  - apply nonneg_cases. left. eexists. reflexivity.
  - apply has_sign_false_nonneg. apply (mul_finite_sign false false).
  - apply nonneg_cases. right. right. reflexivity.
Qed.

Lemma add_nonneg (x y : double) :
  nonneg x = true -> nonneg y = true -> nonneg (add x y) = true.
Proof.
  intros Hx Hy. apply nonneg_cases in Hx, Hy.
  destruct Hx as [(s & ->) | [(m & e & ->) | ->]];
    destruct Hy as [(s' & ->) | [(m' & e' & ->) | ->]];
    try (apply nonneg_cases; simpl; eauto 6; fail).
  - apply nonneg_cases. left. simpl. destruct s, s'; eexists; reflexivity.
  - apply has_sign_false_nonneg. apply add_pos_sign.
Qed.

Lemma round_Z_nonneg (m : positive) (e : Z) : (0 <= round_Z false m e)%Z.
Proof.
  unfold round_Z, cond_Zopp. destruct (0 <=? e)%Z eqn:E.
  - apply Z.leb_le in E.
    assert (0 <= 2 ^ e)%Z by (apply Z.pow_nonneg; lia). nia.
  - apply Z.leb_gt in E.
    assert (0 < 2 ^ (- e))%Z by (apply Z.pow_pos_nonneg; lia).
    apply Z.div_pos; lia.
Qed.

Lemma Math_round_nonneg (x : double) : nonneg x = true -> nonneg (Math_round x) = true.
Proof.
  intros H. pose proof H as H'. apply nonneg_cases in H'.
  destruct H' as [(s & ->) | [(m & e & ->) | ->]]; try exact H.
  unfold Math_round. pose proof (round_Z_nonneg m e) as Hn.
  destruct (round_Z false m e) as [| p | p] eqn:E; simpl.
  - reflexivity.
  - apply has_sign_false_nonneg. apply of_Z_pos_sign.
  - lia.
Qed.



Lemma of_Z_100 : of_Z 100 = hundred.
Proof. vm_compute. reflexivity. Qed.


Lemma negative_below_100 (r : double) :
  r <> S754_nan -> nonneg r = false -> Math_min hundred r = r.
Proof.
  intros Hn H. unfold Math_min.
  destruct r as [s | s | | s m e]; try congruence.
  - exfalso. assert (nonneg (S754_zero s) = true) by (apply nonneg_cases; left; eexists; reflexivity).
    congruence.
  - destruct s; [reflexivity |].
    exfalso. assert (nonneg (S754_infinity false) = true) by (apply nonneg_cases; auto).
    congruence.
  - destruct s; [reflexivity |].
    exfalso. assert (nonneg (S754_finite false m e) = true)
      by (apply nonneg_cases; right; left; eexists _, _; reflexivity).
    congruence.
Qed.





Lemma of_Z_2 : of_Z 2 = S754_finite false 4503599627370496 (-51).
Proof. vm_compute. reflexivity. Qed.





Lemma div_pos_nonneg (x : double) (m : positive) (e : Z) :
  nonneg x = true -> nonneg (div x (S754_finite false m e)) = true.
Proof.
  intros H. apply nonneg_cases in H.
  destruct H as [(s & ->) | [(m' & e' & ->) | ->]].
  - apply nonneg_cases. left. eexists. reflexivity.
  - apply has_sign_false_nonneg. apply (div_finite_sign false false).
  - apply nonneg_cases. right. right. reflexivity.
Qed.

Lemma round2_nonneg (p : double) : nonneg p = true -> nonneg (round2 p) = true.
Proof.
  intros H. unfold round2. rewrite of_Z_100. unfold hundred.
  apply div_pos_nonneg, Math_round_nonneg, mul_pos_nonneg. exact H.
Qed.

(** Multiplying or dividing by a finite nonzero double composes the sign
    bits, whatever the other operand is (short of [NaN]). *)
Lemma has_sign_eq (s : bool) (x : double) :
  has_sign s x = true ->
  x = S754_zero s \/ x = S754_infinity s \/ exists m e, x = S754_finite s m e.
Proof.
  destruct x as [s' | s' | | s' m e]; simpl; intros H; try discriminate;
    apply Bool.eqb_prop in H; subst s'; eauto.
Qed.

Lemma div_sign (s sp : bool) (x : double) (m : positive) (e : Z) :
  has_sign s x = true -> has_sign (xorb s sp) (div x (S754_finite sp m e)) = true.
Proof.
  intros H. destruct (has_sign_eq _ _ H) as [-> | [-> | (m' & e' & ->)]].
  - simpl. apply Bool.eqb_reflx.
  - simpl. apply Bool.eqb_reflx.
  - apply div_finite_sign.
Qed.

Lemma mul_sign (s sp : bool) (x : double) (m : positive) (e : Z) :
  has_sign s x = true -> has_sign (xorb s sp) (mul x (S754_finite sp m e)) = true.
Proof.
  intros H. destruct (has_sign_eq _ _ H) as [-> | [-> | (m' & e' & ->)]].
  - simpl. apply Bool.eqb_reflx.
  - simpl. apply Bool.eqb_reflx.
  - apply mul_finite_sign.
Qed.

End B64Facts.

(** ** Margin calculator *)

Section Margin.



#[global] Instance computeMargin_proper :
  Proper (num_eq ==> num_eq ==> num_eq ==> num_eq ==> num_eq) computeMargin.
Proof.
  intros p p' Hp c c' Hc f f' Hf s s' Hs. unfold computeMargin.
  rewrite Hp, Hc, Hf, Hs. reflexivity.
Qed.





End Margin.

(** C7, as stated, fails.  On the price 5.85 and the costs 2.5, 0.8, 1.2
    the double returned is not the value of
    [((price - cogs - fees - shipping) / price) * 100] at these doubles,
    and on price 1 and cogs 1.7e307 the code returns [-Infinity] where the
    formula has a finite value. *)
Lemma computeMargin_rounds_counterexample :
  (exists qp qc qf qs qm : Q,
     B64.to_Q (B64.dec 585 100) = Some qp /\ B64.to_Q (B64.dec 25 10) = Some qc
     /\ B64.to_Q (B64.dec 8 10) = Some qf /\ B64.to_Q (B64.dec 12 10) = Some qs
     /\ B64.to_Q (B64.computeMargin (B64.dec 585 100) (B64.dec 25 10)
                    (B64.dec 8 10) (B64.dec 12 10)) = Some qm
     /\ ~ qm == ((qp - qc - qf - qs) / qp) * 100)
  /\ B64.ltb (B64.of_Z 0) (B64.of_Z 1) = true
  /\ B64.is_num (B64.of_Z (17 * 10 ^ 306)) = true
  /\ B64.computeMargin (B64.of_Z 1) (B64.of_Z (17 * 10 ^ 306)) (B64.of_Z 0) (B64.of_Z 0)
     = S754_infinity true.
Proof.
  split; [| repeat split; vm_compute; reflexivity].
  do 5 eexists.
  repeat (split; [vm_compute; reflexivity |]).
  vm_compute. discriminate.
Qed.

(** C7, amended.  [computeMargin] returns the double obtained by
    evaluating [((price - cogs - fees - shipping) / price) * 100] in
    binary64: the three subtractions from left to right, the division and
    the multiplication, each rounded to nearest.  For a finite nonzero
    price (in particular a price above zero) and finite cost components
    the result is never [NaN]. *)
Theorem computeMargin_formula (price cogs fees shipping : B64.double) :
  B64.is_num price = true ->
  B64.ltb (B64.of_Z 0) price = true \/ B64.ltb price (B64.of_Z 0) = true ->
  B64.is_num cogs = true -> B64.is_num fees = true -> B64.is_num shipping = true ->
  B64.computeMargin price cogs fees shipping
  = B64.mul (B64.div (B64.sub (B64.sub (B64.sub price cogs) fees) shipping) price)
            (B64.of_Z 100)
  /\ B64.computeMargin price cogs fees shipping <> S754_nan.
Proof.
  intros Hp Hnz Hc Hf Hs. split; [reflexivity |].
  apply computeMargin_not_nan; try assumption.
  destruct price as [s | s | | s m e]; try discriminate Hp.
  - destruct Hnz as [H | H]; vm_compute in H; discriminate.
  - exists s, m, e. reflexivity.
Qed.

Lemma computeMargin_formula_witness :
  B64.computeMargin (B64.dec 585 100) (B64.dec 25 10) (B64.dec 8 10) (B64.dec 12 10)
  <> S754_nan.
Proof.
  apply (computeMargin_formula (B64.dec 585 100) (B64.dec 25 10) (B64.dec 8 10) (B64.dec 12 10));
    try (vm_compute; reflexivity).
  left. vm_compute. reflexivity.
Defined.




(** ** Price ladder *)

Section Ladder.

(** Dividing by the literal [100] is multiplying by one hundredth, which
    linear arithmetic understands. *)
Ltac cents := unfold Qdiv; change (/ 100) with (1 # 100).








Lemma rung_nonneg (k base : Q) : 0 <= base * k -> 0 <= rung k base.
Proof.
  intros H. unfold rung.
  assert (Hz : (0 <= round_half_up (base * k * 100))%Z)
    by (apply round_half_up_nonneg; lra).
  rewrite Zle_Qle in Hz.
  set (r := inject_Z (round_half_up (base * k * 100))) in *.
  cents. change (inject_Z 0) with 0 in Hz. lra.
Qed.



End Ladder.







(** ** Trend scorer *)

Section Scorer.

Local Open Scope js_scope.

#[global] Instance round2_proper : Proper (num_eq ==> num_eq) round2.
Proof. intros a a' Ha. unfold round2. rewrite Ha. reflexivity. Qed.

#[global] Instance scoreOf_proper : Proper (num_eq ==> num_eq ==> num_eq) scoreOf.
Proof. intros v v' Hv m m' Hm. unfold scoreOf. rewrite Hv, Hm. reflexivity. Qed.

(** Capping at 100 agrees with the two-sided clamp exactly on the values
    that are not below zero. *)
Lemma min100_vs_clamp (r : number) :
  Math_min (Fin 100) r =~ clamp r (Fin 0) (Fin 100) <-> JS.ltb r (Fin 0) = false.
Proof.
  unfold clamp. destruct r as [q | | |]; simpl; try (intuition discriminate).
  - destruct (Qle_bool 100 q) eqn:E100; simpl;
      destruct (Qle_bool 0 q) eqn:E0; simpl.
    + split; reflexivity.
    + apply Qle_bool_iff in E100.
      assert (Hq : (0 <= q)%Q) by lra. apply Qle_bool_iff in Hq. congruence.
    + split; reflexivity.
    + split; [| discriminate].
      intros H. assert (Hq : (0 <= q)%Q) by lra.
      apply Qle_bool_iff in Hq. congruence.
  - split; reflexivity.
Qed.



End Scorer.

(** C1, as stated, fails.  With velocity 0 and costs of 1.1 cents the
    lowest rung is one cent, the margin is -10 and the rounded sum -20;
    the code returns -20 where the two-sided clamp gives 0. *)
Lemma profitScore_not_clamped_below_counterexample :
  let d := Raw.mk "#penny" tiktok (Fin 0) (Fin (11 # 1000)) (Fin 0) (Fin 0) in
  let t := enrich "2024-01-01T00:00:00.000Z" 0 d in
  (margin t =~ Fin (-10))%js
  /\ (profitScore t =~ Fin (-20))%js
  /\ (spec_profitScore (Raw.velocity d) (margin t) =~ Fin 0)%js
  /\ ~ (profitScore t =~ spec_profitScore (Raw.velocity d) (margin t))%js.
Proof.
  cbv zeta. repeat split; try (vm_compute; reflexivity).
  vm_compute. discriminate.
Qed.

(** C1, amended.  The profit score of a scored record is
    [min(100, round(velocity * 0.2 + margin * 2))], the two products being
    summed before rounding and the margin being the one taken at the lowest
    rung; the rounded sum is capped at 100 and not raised to 0, so the score
    equals the two-sided clamp exactly when the rounded sum is not negative. *)
Theorem profitScore_min_round (now : string) (idx : nat) (d : Raw.t) :
  let t := enrich now idx d in
  let r := Math_round (Raw.velocity d * Fin (2 # 10) + margin t * Fin 2)%js in
  margin t = computeMargin (index0 (priceLadder t)) (Raw.cogs d) (Raw.fees d) (Raw.shipping d)
  /\ profitScore t = Math_min (Fin 100) r
  /\ ((profitScore t =~ spec_profitScore (Raw.velocity d) (margin t))%js
      <-> JS.ltb r (Fin 0) = false).
Proof.
  cbv zeta. split; [reflexivity |]. split; [reflexivity |].
  unfold spec_profitScore. cbn [profitScore margin enrich]. unfold scoreOf.
  apply min100_vs_clamp.
Qed.




Section Frame.

Lemma enrich_from_carries (clock : nat -> string) (ds : list Raw.t) :
  forall idx, Forall2 carries ds (enrich_from clock idx ds).
Proof.
  induction ds as [| d ds IH]; intros idx; simpl.
  - constructor.
  - constructor; [| apply IH]. repeat split.
Qed.

Lemma enrich_from_length (clock : nat -> string) (ds : list Raw.t) :
  forall idx, List.length (enrich_from clock idx ds) = List.length ds.
Proof.
  induction ds as [| d ds IH]; intros idx; simpl; [reflexivity |].
  rewrite IH; reflexivity.
Qed.

End Frame.

(** C9.  The record scored from a raw signal has the signal's name,
    platform, velocity, cogs, fees and shipping; what scoring adds is the
    ladder, the margin, the score, the id and the timestamp.  A batch is
    scored record by record, in order, each raw signal giving one record
    that carries its fields. *)
Theorem enrich_preserves_raw_fields (now : string) (idx : nat) (d : Raw.t)
    (clock : nat -> string) (ds : list Raw.t) :
  let t := enrich now idx d in
  (name t = Raw.name d /\ platform t = Raw.platform d
   /\ velocity t = Raw.velocity d /\ cogs t = Raw.cogs d
   /\ fees t = Raw.fees d /\ shipping t = Raw.shipping d)
  /\ (id t = mock_id idx /\ createdAt t = now
      /\ priceLadder t = generatePriceLadder (Raw.cogs d) (Raw.fees d) (Raw.shipping d)
      /\ margin t = computeMargin (index0 (priceLadder t)) (Raw.cogs d) (Raw.fees d) (Raw.shipping d)
      /\ profitScore t = scoreOf (Raw.velocity d) (margin t))
  /\ List.length (enrichAll clock ds) = List.length ds
  /\ Forall2 carries ds (enrichAll clock ds).
Proof.
  cbv zeta. split; [repeat split |]. split; [repeat split |].
  split; [apply enrich_from_length | apply enrich_from_carries].
Qed.

Section CostSum.

Local Open Scope js_scope.

#[global] Instance margin_of_base_proper : Proper (num_eq ==> num_eq) margin_of_base.
Proof. intros b b' Hb. unfold margin_of_base. cbv zeta. rewrite Hb. reflexivity. Qed.


End CostSum.

(** C10, as stated, fails.  The raw signals with velocity 0 and costs
    (0, 0, 0.921) and (0, 0.037, 0.884) have the same double as
    [cogs + fees + shipping] and the same ladder, yet their margins differ
    in the last bits and their scores are 46 and 47: the margin subtracts
    the three costs from the price one after the other, and the two
    chains round differently. *)
Lemma score_not_by_cost_sum_counterexample :
  let zero := B64.of_Z 0 in
  let t1 := B64.enrich zero zero zero (B64.dec 921 1000) in
  let t2 := B64.enrich zero zero (B64.dec 37 1000) (B64.dec 884 1000) in
  B64.add (B64.add zero zero) (B64.dec 921 1000)
  = B64.add (B64.add zero (B64.dec 37 1000)) (B64.dec 884 1000)
  /\ B64.priceLadder t1 = B64.priceLadder t2
  /\ B64.ltb (B64.margin t1) (B64.margin t2) = true
  /\ B64.profitScore t1 = B64.of_Z 46
  /\ B64.profitScore t2 = B64.of_Z 47.
Proof.
  cbv zeta. repeat split; vm_compute; reflexivity.
Qed.

(** C10, amended.  The price ladder depends on the cost components only
    through the double [cogs + fees + shipping]: two raw signals for which
    the code computes the same sum get the same ladder, whatever their
    velocities, and so the same price under their margins.  The margin,
    and with it the score, is taken from [price - cogs - fees - shipping],
    subtracted one cost after the other, and is not a function of the
    sum. *)
Theorem score_depends_on_cost_sum (v1 c1 f1 s1 v2 c2 f2 s2 : B64.double) :
  B64.add (B64.add c1 f1) s1 = B64.add (B64.add c2 f2) s2 ->
  B64.generatePriceLadder c1 f1 s1 = B64.generatePriceLadder c2 f2 s2
  /\ B64.priceLadder (B64.enrich v1 c1 f1 s1) = B64.priceLadder (B64.enrich v2 c2 f2 s2)
  /\ exists price : B64.double,
       B64.index0 (B64.priceLadder (B64.enrich v1 c1 f1 s1)) = price
       /\ B64.index0 (B64.priceLadder (B64.enrich v2 c2 f2 s2)) = price
       /\ B64.margin (B64.enrich v1 c1 f1 s1)
          = B64.mul (B64.div (B64.sub (B64.sub (B64.sub price c1) f1) s1) price) (B64.of_Z 100)
       /\ B64.margin (B64.enrich v2 c2 f2 s2)
          = B64.mul (B64.div (B64.sub (B64.sub (B64.sub price c2) f2) s2) price) (B64.of_Z 100).
Proof.
  intros H.
  assert (L : B64.generatePriceLadder c1 f1 s1 = B64.generatePriceLadder c2 f2 s2)
    by (unfold B64.generatePriceLadder; rewrite H; reflexivity).
  split; [exact L |]. split; [exact L |].
  exists (B64.index0 (B64.generatePriceLadder c2 f2 s2)).
  cbn [B64.priceLadder B64.margin B64.enrich]. rewrite L.
  repeat split.
Qed.

Lemma score_depends_on_cost_sum_witness :
  let zero := B64.of_Z 0 in
  B64.generatePriceLadder zero zero (B64.dec 921 1000)
  = B64.generatePriceLadder zero (B64.dec 37 1000) (B64.dec 884 1000).
Proof.
  cbv zeta.
  apply (score_depends_on_cost_sum
           (B64.of_Z 0) (B64.of_Z 0) (B64.of_Z 0) (B64.dec 921 1000)
           (B64.of_Z 0) (B64.of_Z 0) (B64.dec 37 1000) (B64.dec 884 1000)).
  vm_compute. reflexivity.
Defined.

(** ** The store: ordering of the score column *)

Section ColumnOrder.

Lemma col_leb_total (a b : number) : col_leb a b = true \/ col_leb b a = true.
Proof.
  destruct a as [x | | |], b as [y | | |]; simpl; auto.
  destruct (Qle_bool x y) eqn:E; auto. right.
  apply Qle_bool_iff.
  destruct (Qlt_le_dec y x) as [H | H]; [lra |].
  apply Qle_bool_iff in H. congruence.
Qed.

Lemma col_leb_trans (a b c : number) :
  col_leb a b = true -> col_leb b c = true -> col_leb a c = true.
Proof.
  destruct a as [x | | |], b as [y | | |], c as [z | | |]; simpl; auto;
    try discriminate.
  rewrite !Qle_bool_iff. intros; lra.
Qed.

Lemma desc_total (x y : Trend) :
  desc_profitScore x y = true \/ desc_profitScore y x = true.
Proof. unfold desc_profitScore. apply col_leb_total. Qed.

Lemma desc_trans (x y z : Trend) :
  desc_profitScore x y = true -> desc_profitScore y z = true ->
  desc_profitScore x z = true.
Proof.
  unfold desc_profitScore. intros H1 H2.
  exact (col_leb_trans _ _ _ H2 H1).
Qed.

End ColumnOrder.

(** ** The store: reading the ranking *)

Section Select.

Lemma insert_desc_perm (r : Trend) (l : list Trend) :
  Permutation (r :: l) (insert_desc r l).
Proof.
  induction l as [| y l IH]; simpl; [reflexivity |].
  destruct (desc_profitScore r y); [reflexivity |].
  rewrite perm_swap. constructor. exact IH.
Qed.

Lemma select_order_desc_perm (tbl : Table) : Permutation tbl (select_order_desc tbl).
Proof.
  induction tbl as [| r tbl IH]; simpl; [constructor |].
  rewrite <- insert_desc_perm. constructor. exact IH.
Qed.

Lemma insert_desc_sorted (r : Trend) (l : list Trend) :
  StronglySorted desc l -> StronglySorted desc (insert_desc r l).
Proof.
  induction 1 as [| y l Hl IH Hy]; simpl.
  - constructor; constructor.
  - destruct (desc_profitScore r y) eqn:E.
    + constructor; [constructor; assumption |].
      constructor; [exact E |].
      eapply Forall_impl; [| exact Hy].
      intros z Hz. exact (desc_trans _ _ _ E Hz).
    + constructor; [exact IH |].
      assert (Hyr : desc y r)
        by (destruct (desc_total r y) as [H | H]; [congruence | exact H]).
      eapply Permutation_Forall; [apply insert_desc_perm |].
      constructor; assumption.
Qed.

Lemma select_order_desc_sorted (tbl : Table) : StronglySorted desc (select_order_desc tbl).
Proof.
  induction tbl as [| r tbl IH]; simpl; [constructor |].
  apply insert_desc_sorted; exact IH.
Qed.

(** The stable sort is one of the answers the query allows. *)
Lemma select_order_desc_ok (tbl : Table) : ordered_select tbl (select_order_desc tbl).
Proof.
  split; [apply select_order_desc_perm | apply select_order_desc_sorted].
Qed.

(** In a list sorted this way, an earlier row never has the lower score. *)
Lemma sorted_nth_desc (l : list Trend) :
  StronglySorted desc l ->
  forall i j x y, (i < j)%nat -> nth_error l i = Some x -> nth_error l j = Some y ->
    desc x y.
Proof.
  induction 1 as [| a l Hl IH Ha]; intros i j x y Hij Hi Hj.
  - destruct i; discriminate.
  - destruct j as [| j]; [lia |]. simpl in Hj.
    destruct i as [| i]; simpl in Hi.
    + injection Hi as <-. rewrite Forall_forall in Ha.
      apply Ha. eapply nth_error_In; exact Hj.
    + apply (IH i j); [lia | exact Hi | exact Hj].
Qed.

End Select.

(** ** The store: upsert on conflict of name *)

Section Upsert.

Lemma same_name_true (r x : Trend) : same_name r x = true <-> name x = name r.
Proof. unfold same_name. apply String.eqb_eq. Qed.

Lemma same_name_false (r x : Trend) : same_name r x = false <-> name x <> name r.
Proof. unfold same_name. apply String.eqb_neq. Qed.

Lemma existsb_same_name (r : Trend) (tbl : Table) :
  existsb (same_name r) tbl = true <-> In (name r) (map name tbl).
Proof.
  rewrite existsb_exists, in_map_iff. split.
  - intros (x & Hx & Hn). exists x. split; [apply same_name_true; exact Hn | exact Hx].
  - intros (x & Hn & Hx). exists x. split; [exact Hx | apply same_name_true; exact Hn].
Qed.

(** Replacing the row of that name leaves the column of names as it was. *)
Lemma replace_names (r : Trend) (tbl : Table) :
  map name (map (fun x => if same_name r x then r else x) tbl) = map name tbl.
Proof.
  induction tbl as [| y tbl IH]; simpl; [reflexivity |].
  rewrite IH. destruct (same_name r y) eqn:E; [| reflexivity].
  apply same_name_true in E. rewrite E. reflexivity.
Qed.

Lemma upsert1_names (r : Trend) (tbl : Table) :
  map name (upsert1 r tbl)
  = if existsb (same_name r) tbl then map name tbl else map name tbl ++ [name r].
Proof.
  unfold upsert1. destruct (existsb (same_name r) tbl).
  - apply replace_names.
  - rewrite map_app. reflexivity.
Qed.

Lemma upsert1_NoDup (r : Trend) (tbl : Table) :
  NoDup (map name tbl) -> NoDup (map name (upsert1 r tbl)).
Proof.
  intros H. rewrite upsert1_names.
  destruct (existsb (same_name r) tbl) eqn:E; [exact H |].
  assert (Hn : ~ In (name r) (map name tbl)).
  { intros Hin. apply existsb_same_name in Hin. congruence. }
  apply NoDup_app; [exact H | repeat constructor; intros [] | ].
  intros n Hin [<- | []]. exact (Hn Hin).
Qed.

Lemma upsert1_In_new (r : Trend) (tbl : Table) : In r (upsert1 r tbl).
Proof.
  unfold upsert1. destruct (existsb (same_name r) tbl) eqn:E.
  - apply existsb_exists in E. destruct E as (x & Hx & Hs).
    apply in_map_iff. exists x. rewrite Hs. split; [reflexivity | exact Hx].
  - apply in_or_app. right. left. reflexivity.
Qed.

Lemma upsert1_In_old (r x : Trend) (tbl : Table) :
  In x tbl -> name x <> name r -> In x (upsert1 r tbl).
Proof.
  intros Hx Hn. unfold upsert1. destruct (existsb (same_name r) tbl).
  - apply in_map_iff. exists x. split; [| exact Hx].
    apply same_name_false in Hn. rewrite Hn. reflexivity.
  - apply in_or_app. left. exact Hx.
Qed.

Lemma upsert1_In_inv (r x : Trend) (tbl : Table) :
  In x (upsert1 r tbl) -> x = r \/ (In x tbl /\ name x <> name r).
Proof.
  unfold upsert1. destruct (existsb (same_name r) tbl) eqn:E.
  - intros H. apply in_map_iff in H. destruct H as (y & Hy & Hin).
    destruct (same_name r y) eqn:Ey; [left; symmetry; exact Hy |].
    right. subst y. split; [exact Hin | apply same_name_false; exact Ey].
  - intros H. apply in_app_or in H. destruct H as [H | [H | []]].
    + right. split; [exact H |]. intros En.
      assert (Hex : existsb (same_name r) tbl = true).
      { apply existsb_exists. exists x. split; [exact H | apply same_name_true; exact En]. }
      congruence.
    + left. symmetry. exact H.
Qed.

End Upsert.

Section UpsertBatch.

Lemma upsert_NoDup (rows : list Trend) :
  forall tbl, NoDup (map name tbl) -> NoDup (map name (upsert rows tbl)).
Proof.
  induction rows as [| r rows IH]; intros tbl H; simpl; [exact H |].
  apply IH. apply upsert1_NoDup. exact H.
Qed.

Lemma upsert_In_keep (x : Trend) (rows : list Trend) :
  forall tbl, In x tbl -> ~ In (name x) (map name rows) -> In x (upsert rows tbl).
Proof.
  induction rows as [| r rows IH]; intros tbl Hx Hn; simpl; [exact Hx |].
  apply IH.
  - apply upsert1_In_old; [exact Hx |]. intros E. apply Hn. left. symmetry. exact E.
  - intros Hin. apply Hn. right. exact Hin.
Qed.

Lemma upsert_In_batch (r : Trend) (rows : list Trend) :
  forall tbl, NoDup (map name rows) -> In r rows -> In r (upsert rows tbl).
Proof.
  induction rows as [| r0 rows IH]; intros tbl Hnd Hin; [destruct Hin |].
  simpl in Hnd. inversion Hnd as [| n ns Hn0 Hnd']; subst.
  simpl. destruct Hin as [-> | Hin].
  - apply upsert_In_keep; [apply upsert1_In_new | exact Hn0].
  - apply IH; assumption.
Qed.

Lemma upsert_In_inv (x : Trend) (rows : list Trend) :
  forall tbl, In x (upsert rows tbl) ->
    In x rows \/ (In x tbl /\ ~ In (name x) (map name rows)).
Proof.
  induction rows as [| r rows IH]; intros tbl H; simpl in *.
  - right. split; [exact H | intros []].
  - destruct (IH _ H) as [Hin | (Hin & Hn)]; [left; right; exact Hin |].
    destruct (upsert1_In_inv _ _ _ Hin) as [-> | (Hold & Hne)]; [left; left; reflexivity |].
    right. split; [exact Hold |].
    intros [E | Hin']; [apply Hne; symmetry; exact E | exact (Hn Hin')].
Qed.

(** Among rows of distinct names, a row is the only one of its name. *)
Lemma filter_same_name (r : Trend) (l : list Trend) :
  NoDup (map name l) -> In r l -> filter (same_name r) l = [r].
Proof.
  induction l as [| y l IH]; intros Hnd Hin; [destruct Hin |].
  simpl in Hnd. inversion Hnd as [| n ns Hny Hnd']; subst.
  simpl. destruct Hin as [-> | Hin].
  - assert (E : same_name r r = true) by (apply same_name_true; reflexivity).
    rewrite E. f_equal.
    clear - Hny. induction l as [| z l IH]; simpl; [reflexivity |].
    destruct (same_name r z) eqn:Ez.
    + exfalso. apply Hny. left. apply same_name_true; exact Ez.
    + apply IH. intros H. apply Hny. right. exact H.
  - assert (E : same_name r y = false).
    { apply same_name_false. intros En. apply Hny. rewrite En.
      apply in_map. exact Hin. }
    rewrite E. apply IH; assumption.
Qed.

Lemma reconcile_data_perm (tbl : Table) (batch : list Trend) :
  Permutation (upsert batch tbl) (snd (reconcile tbl batch)).
Proof. unfold reconcile. simpl. apply select_order_desc_perm. Qed.

End UpsertBatch.

(** C5, as stated, fails.  Reconciling the three mock signals into an
    empty collection gives three records of score 100; the query orders by
    score only, and the answer [#LEDcollars, #tinyhats, #AIstickers] is one
    it allows although [#AIstickers] sorts before [#tinyhats]. *)
Lemma ties_not_by_name_counterexample :
  let clock := fun _ : nat => "2024-01-01T00:00:00.000Z"%string in
  let tbl := fst (fetchTrends clock []) in
  let data := snd (fetchTrends clock []) in
  map name data = ["#LEDcollars"; "#tinyhats"; "#AIstickers"]%string
  /\ map profitScore data = [Fin 100; Fin 100; Fin 100]
  /\ ordered_select tbl data
  /\ name_ltb "#tinyhats" "#AIstickers" = false
  /\ ties_by_name data = false.
Proof.
  cbv zeta. split; [vm_compute; reflexivity |]. split; [vm_compute; reflexivity |].
  split; [apply select_order_desc_ok |]. split; vm_compute; reflexivity.
Qed.

(** C5, amended.  The collection handed back by the reconciler holds the
    rows of the merged table, highest [profitScore] first: in every answer
    the query allows, a record that comes earlier never has the lower
    score.  Records of equal score come in the order the store returns
    them; the query names no second key. *)
Theorem reconcile_sorted_by_score (tbl : Table) (batch : list Trend) :
  fst (reconcile tbl batch) = upsert batch tbl
  /\ ordered_select (upsert batch tbl) (snd (reconcile tbl batch))
  /\ forall data, ordered_select (upsert batch tbl) data ->
       (forall x, In x data <-> In x (upsert batch tbl))
       /\ (forall i j x y, (i < j)%nat ->
             nth_error data i = Some x -> nth_error data j = Some y ->
             col_leb (profitScore y) (profitScore x) = true).
Proof.
  split; [reflexivity |]. split; [apply select_order_desc_ok |].
  intros data (Hperm & Hsorted). split.
  - intros x. split; apply Permutation_in; [symmetry |]; exact Hperm.
  - intros i j x y Hij Hi Hj.
    exact (sorted_nth_desc _ Hsorted i j x y Hij Hi Hj).
Qed.

(** C6.  Names are unique in the stored table (the conflict target of the
    upsert); the reconciled collection then again has one record per name,
    in the table and in the ranking read back.  Every record of a batch of
    distinct names is in it, whole, and is the only record of its name,
    whether the name was stored before or not; a stored record stays
    exactly when the batch does not name it.  Reconciling two records of
    one name one after the other leaves that name with the second record
    alone. *)
Theorem reconcile_one_record_per_name (tbl : Table) (batch : list Trend) :
  NoDup (map name tbl) ->
  let data := snd (reconcile tbl batch) in
  NoDup (map name (fst (reconcile tbl batch)))
  /\ NoDup (map name data)
  /\ (NoDup (map name batch) ->
      forall r, In r batch -> In r data /\ filter (same_name r) data = [r])
  /\ (forall x, In x tbl -> ~ In (name x) (map name batch) -> In x data)
  /\ (forall x, In x data ->
        In x batch \/ (In x tbl /\ ~ In (name x) (map name batch)))
  /\ (forall r1 r2, name r1 = name r2 ->
        filter (same_name r2)
          (snd (reconcile (fst (reconcile tbl [r1])) [r2])) = [r2]).
Proof.
  intros Htbl. cbv zeta.
  assert (Hnd : forall t rows, NoDup (map name t) ->
                  NoDup (map name (snd (reconcile t rows)))).
  { intros t rows Ht.
    eapply Permutation_NoDup;
      [apply Permutation_map; apply reconcile_data_perm |].
    apply upsert_NoDup; exact Ht. }
  split; [apply upsert_NoDup; exact Htbl |].
  split; [apply Hnd; exact Htbl |].
  split; [| split; [| split]].
  - intros Hbatch r Hr.
    assert (Hin : In r (snd (reconcile tbl batch))).
    { eapply Permutation_in; [apply reconcile_data_perm |].
      apply upsert_In_batch; assumption. }
    split; [exact Hin |]. apply filter_same_name; [apply Hnd; exact Htbl | exact Hin].
  - intros x Hx Hn.
    eapply Permutation_in; [apply reconcile_data_perm |].
    apply upsert_In_keep; assumption.
  - intros x Hx. apply upsert_In_inv.
    eapply Permutation_in; [symmetry; apply reconcile_data_perm | exact Hx].
  - intros r1 r2 _.
    apply filter_same_name.
    + apply Hnd. apply (upsert_NoDup [r1]). exact Htbl.
    + eapply Permutation_in; [apply reconcile_data_perm |].
      apply upsert_In_batch; [repeat constructor; intros [] | left; reflexivity].
Qed.

Lemma reconcile_one_record_per_name_witness :
  let tbl := fst (fetchTrends (fun _ => "2024-01-01T00:00:00.000Z"%string) []) in
  let batch := enrichAll (fun _ => "2024-01-02T00:00:00.000Z"%string) mockData in
  let data := snd (reconcile tbl batch) in
  NoDup (map name (fst (reconcile tbl batch)))
  /\ NoDup (map name data)
  /\ (forall r, In r batch -> In r data /\ filter (same_name r) data = [r]).
Proof.
  assert (Hnames : NoDup ["#LEDcollars"; "#tinyhats"; "#AIstickers"]%string).
  { repeat constructor; simpl; intuition discriminate. }
  destruct (reconcile_one_record_per_name
              (fst (fetchTrends (fun _ => "2024-01-01T00:00:00.000Z"%string) []))
              (enrichAll (fun _ => "2024-01-02T00:00:00.000Z"%string) mockData)
              Hnames) as (H1 & H2 & H3 & _).
  cbv zeta. split; [exact H1 |]. split; [exact H2 |]. exact (H3 Hnames).
Defined.

(** ** The scenarios of the page's own data *)

Example mock_ladders :
  map priceLadder (enrichAll (fun _ => EmptyString) mockData)
  = [ [Fin (585 # 100); Fin (720 # 100); Fin (900 # 100)];
      [Fin (442 # 100); Fin (544 # 100); Fin (680 # 100)];
      [Fin (130 # 100); Fin (160 # 100); Fin (200 # 100)] ].
Proof. vm_compute. reflexivity. Qed.

Example mock_scores :
  map profitScore (enrichAll (fun _ => EmptyString) mockData)
  = [Fin 100; Fin 100; Fin 100].
Proof. vm_compute. reflexivity. Qed.

Example mock_ids :
  map id (enrichAll (fun _ => EmptyString) mockData)
  = ["mock-0"; "mock-1"; "mock-2"]%string.
Proof. vm_compute. reflexivity. Qed.

(** Running the page's fetch twice keeps three rows, stamped by the second run. *)
Example fetchTrends_twice :
  let first := fst (fetchTrends (fun _ => "T1"%string) []) in
  map (fun t => (name t, createdAt t)) (snd (fetchTrends (fun _ => "T2"%string) first))
  = [("#LEDcollars", "T2"); ("#tinyhats", "T2"); ("#AIstickers", "T2")]%string.
Proof. vm_compute. reflexivity. Qed.

(** All costs zero: a ladder of zeros and a margin that is not a number. *)
Example zero_costs :
  let t := enrich EmptyString 0 (Raw.mk "#free" gumroad (Fin 10) (Fin 0) (Fin 0) (Fin 0)) in
  Forall2 num_eq (priceLadder t) [Fin 0; Fin 0; Fin 0]
  /\ margin t = NaN /\ profitScore t = NaN.
Proof.
  cbv zeta. split; [repeat constructor; vm_compute; reflexivity |].
  split; vm_compute; reflexivity.
Qed.

(** The same data in binary64: the ladders and scores the page shows. *)
Example mock_ladders_binary64 :
  B64.generatePriceLadder (B64.dec 25 10) (B64.dec 8 10) (B64.dec 12 10)
  = [B64.dec 585 100; B64.dec 72 10; B64.of_Z 9]
  /\ B64.generatePriceLadder (B64.dec 18 10) (B64.dec 6 10) (B64.of_Z 1)
     = [B64.dec 442 100; B64.dec 544 100; B64.dec 68 10]
  /\ B64.generatePriceLadder (B64.dec 5 10) (B64.dec 3 10) (B64.dec 2 10)
     = [B64.dec 13 10; B64.dec 16 10; B64.of_Z 2].
Proof. repeat split; vm_compute; reflexivity. Qed.

Example mock_scores_binary64 :
  B64.profitScore (B64.enrich (B64.of_Z 450) (B64.dec 25 10) (B64.dec 8 10) (B64.dec 12 10))
  = B64.of_Z 100
  /\ B64.profitScore (B64.enrich (B64.of_Z 310) (B64.dec 18 10) (B64.dec 6 10) (B64.of_Z 1))
     = B64.of_Z 100
  /\ B64.profitScore (B64.enrich (B64.of_Z 280) (B64.dec 5 10) (B64.dec 3 10) (B64.dec 2 10))
     = B64.of_Z 100.
Proof. repeat split; vm_compute; reflexivity. Qed.

(** Costs beyond the range of doubles: an infinite ladder, and a margin and
    a score that are not numbers. *)
Example overflow_costs_binary64 :
  let t := B64.enrich (B64.of_Z 450) (B64.of_Z (2 ^ 1023)) (B64.of_Z 0) (B64.of_Z 0) in
  B64.priceLadder t = [S754_infinity false; S754_infinity false; S754_infinity false]
  /\ B64.margin t = S754_nan /\ B64.profitScore t = S754_nan.
Proof. cbv zeta. repeat split; vm_compute; reflexivity. Qed.

(** * Further properties of the scoring code *)

(** ** The ladder and the margin in binary64 *)

(** X1.  For cost components that are at least 0 (a zero of either sign, a
    positive double or [Infinity]) the ladder has three rungs and each of
    them is at least 0: no rung is negative and none is [NaN], though a
    rung is [Infinity] where a product overflows. *)
Theorem ladder_never_negative (cogs fees shipping : B64.double) :
  B64.nonneg cogs = true -> B64.nonneg fees = true -> B64.nonneg shipping = true ->
  exists p1 p2 p3 : B64.double,
    B64.generatePriceLadder cogs fees shipping = [p1; p2; p3]
    /\ B64.nonneg p1 = true /\ B64.nonneg p2 = true /\ B64.nonneg p3 = true.
Proof.
  intros Hc Hf Hs.
  assert (Hb : B64.nonneg (B64.add (B64.add cogs fees) shipping) = true)
    by (apply add_nonneg; [apply add_nonneg |]; assumption).
  assert (E13 : exists m e, B64.dec 13 10 = S754_finite false m e)
    by (vm_compute; eexists _, _; reflexivity).
  assert (E16 : exists m e, B64.dec 16 10 = S754_finite false m e)
    by (vm_compute; eexists _, _; reflexivity).
  destruct E13 as (m13 & e13 & E13). destruct E16 as (m16 & e16 & E16).
  unfold B64.generatePriceLadder. cbn [map].
  do 3 eexists. split; [reflexivity |].
  rewrite E13, E16, of_Z_2.
  repeat split; apply round2_nonneg, mul_pos_nonneg; exact Hb.
Qed.

Lemma ladder_never_negative_witness :
  exists p1 p2 p3 : B64.double,
    B64.generatePriceLadder (B64.of_Z (12 * 10 ^ 305)) (B64.dec 8 10) (B64.of_Z 0) = [p1; p2; p3]
    /\ B64.nonneg p1 = true /\ B64.nonneg p2 = true /\ B64.nonneg p3 = true.
Proof.
  apply (ladder_never_negative (B64.of_Z (12 * 10 ^ 305)) (B64.dec 8 10) (B64.of_Z 0));
    vm_compute; reflexivity.
Defined.

(** X3.  On a finite price other than zero the margin carries the sign of
    the difference [price - cogs - fees - shipping] as the code computes
    it, the three subtractions rounded one after the other (and the
    opposite sign on a negative price).  That is not always the sign of
    the exact difference: a cost too small to change the difference is
    absorbed. *)
Theorem computeMargin_sign (sp : bool) (m : positive) (e : Z)
    (cogs fees shipping : B64.double) (s : bool) :
  let price := S754_finite sp m e in
  B64.has_sign s (B64.sub (B64.sub (B64.sub price cogs) fees) shipping) = true ->
  B64.has_sign (xorb s sp) (B64.computeMargin price cogs fees shipping) = true.
Proof.
  intros price H. unfold B64.computeMargin. rewrite of_Z_100. unfold B64.hundred.
  rewrite <- (Bool.xorb_false_r (xorb s sp)).
  apply mul_sign. apply div_sign. exact H.
Qed.

Lemma computeMargin_sign_witness :
  B64.has_sign false
    (B64.computeMargin (B64.of_Z 2) (B64.of_Z 1) (B64.dec 1 100000000000000000) (B64.of_Z 1))
  = true
  /\ B64.has_sign true
       (B64.computeMargin (B64.of_Z 2) (B64.of_Z 1) (B64.of_Z 1) (B64.of_Z 1))
     = true.
Proof.
  rewrite of_Z_2. split.
  - apply (computeMargin_sign false 4503599627370496 (-51)
             (B64.of_Z 1) (B64.dec 1 100000000000000000) (B64.of_Z 1) false).
    vm_compute. reflexivity.
  - apply (computeMargin_sign false 4503599627370496 (-51)
             (B64.of_Z 1) (B64.of_Z 1) (B64.of_Z 1) true).
    vm_compute. reflexivity.
Defined.

(** The costs 1, 1e-17 and 1 exceed the price 2, yet the margin is 0. *)
Example computeMargin_absorbs_small_cost :
  B64.computeMargin (B64.of_Z 2) (B64.of_Z 1) (B64.dec 1 100000000000000000) (B64.of_Z 1)
  = S754_zero false.
Proof. vm_compute. reflexivity. Qed.

(** ** Margin: division by zero *)

(** X4.  [computeMargin] has no guard on the price.  On a price of zero,
    of either sign, the result is never a finite number, whatever the
    costs are: it is an infinity or [NaN].  For a [cogs] above zero with
    fees and shipping zero it is [-Infinity] on the price [0] and
    [Infinity] on the price [-0]. *)
Theorem computeMargin_zero_price (s0 : bool) (cogs fees shipping : B64.double) :
  B64.is_num (B64.computeMargin (S754_zero s0) cogs fees shipping) = false
  /\ (forall m e s1 s2,
        cogs = S754_finite false m e -> fees = S754_zero s1 -> shipping = S754_zero s2 ->
        B64.computeMargin (S754_zero s0) cogs fees shipping = S754_infinity (negb s0)).
Proof.
  split.
  - unfold B64.computeMargin. rewrite of_Z_100.
    destruct (B64.sub (B64.sub (B64.sub (S754_zero s0) cogs) fees) shipping)
      as [s | s | | s m e]; reflexivity.
  - intros m e s1 s2 -> -> ->. unfold B64.computeMargin. rewrite of_Z_100.
    destruct s0; reflexivity.
Qed.

Lemma computeMargin_zero_price_witness :
  B64.computeMargin (S754_zero false) (B64.dec 25 10) (B64.of_Z 0) (B64.of_Z 0)
  = S754_infinity true
  /\ B64.computeMargin (S754_zero true) (B64.dec 25 10) (B64.of_Z 0) (B64.of_Z 0)
     = S754_infinity false.
Proof.
  split.
  - destruct (computeMargin_zero_price false (B64.dec 25 10) (B64.of_Z 0) (B64.of_Z 0))
      as (_ & H).
    apply (H 5629499534213120%positive (-51)%Z false false); vm_compute; reflexivity.
  - destruct (computeMargin_zero_price true (B64.dec 25 10) (B64.of_Z 0) (B64.of_Z 0))
      as (_ & H).
    apply (H 5629499534213120%positive (-51)%Z false false); vm_compute; reflexivity.
Defined.

(** ** Scores that are not numbers *)

Section Degenerate.

Local Open Scope js_scope.





End Degenerate.



(** ** The score as a function of velocity and margin *)

Section ScoreShape.





End ScoreShape.



Section Band.


End Band.



(** ** Ids and timestamps of a batch *)

Section BatchIds.

Lemma to_uint_not_Nil (n : nat) : Nat.to_uint n <> Decimal.Nil.
Proof.
  intros E.
  pose proof (DecimalNat.Unsigned.of_to n) as H. rewrite E in H.
  simpl in H. subst n. discriminate E.
Qed.

Lemma mock_id_inj (i j : nat) : mock_id i = mock_id j -> i = j.
Proof.
  unfold mock_id. simpl. intros H. injection H as H.
  apply DecimalNat.Unsigned.to_uint_inj.
  assert (Hi := DecimalString.NilZero.usu _ (to_uint_not_Nil i)).
  assert (Hj := DecimalString.NilZero.usu _ (to_uint_not_Nil j)).
  rewrite H in Hi. congruence.
Qed.

Lemma enrich_from_nth (clock : nat -> string) (ds : list Raw.t) :
  forall start i d,
    nth_error ds i = Some d ->
    nth_error (enrich_from clock start ds) i
    = Some (enrich (clock (start + i)%nat) (start + i)%nat d).
Proof.
  induction ds as [| d0 ds IH]; intros start i d H; [destruct i; discriminate |].
  destruct i as [| i]; simpl in *.
  - injection H as <-. rewrite Nat.add_0_r. reflexivity.
  - rewrite (IH (S start) i d H). rewrite Nat.add_succ_r. reflexivity.
Qed.

Lemma enrich_from_ids (clock : nat -> string) (ds : list Raw.t) :
  forall start,
    map id (enrich_from clock start ds) = map mock_id (seq start (List.length ds)).
Proof.
  induction ds as [| d ds IH]; intros start; simpl; [reflexivity |].
  rewrite IH. reflexivity.
Qed.

End BatchIds.

(** X8.  Within one scored batch the record at position [i] comes from
    the raw signal at position [i], has the id [mock-i] and the timestamp
    read while it was built; the ids of a batch are pairwise distinct,
    whatever the raw signals are. *)
Theorem enrichAll_ids_distinct (clock : nat -> string) (ds : list Raw.t) :
  (forall i d, nth_error ds i = Some d ->
     nth_error (enrichAll clock ds) i = Some (enrich (clock i) i d))
  /\ NoDup (map id (enrichAll clock ds)).
Proof.
  split.
  - intros i d H. unfold enrichAll.
    exact (enrich_from_nth clock ds 0 i d H).
  - unfold enrichAll. rewrite enrich_from_ids.
    apply Finite.Injective_map_NoDup; [| apply seq_NoDup].
    intros i j. apply mock_id_inj.
Qed.

(** ** The store: nothing is deleted *)

Section UpsertFrame.

Lemma upsert1_length (r : Trend) (tbl : Table) :
  (List.length tbl <= List.length (upsert1 r tbl))%nat.
Proof.
  unfold upsert1. destruct (existsb (same_name r) tbl).
  - rewrite length_map. lia.
  - rewrite length_app. simpl. lia.
Qed.

Lemma upsert_length (rows : list Trend) :
  forall tbl, (List.length tbl <= List.length (upsert rows tbl))%nat.
Proof.
  induction rows as [| r rows IH]; intros tbl; simpl; [lia |].
  pose proof (upsert1_length r tbl). pose proof (IH (upsert1 r tbl)). lia.
Qed.

Lemma upsert1_name_kept (r : Trend) (tbl : Table) (n : string) :
  In n (map name tbl) -> In n (map name (upsert1 r tbl)).
Proof.
  intros H. rewrite upsert1_names.
  destruct (existsb (same_name r) tbl); [exact H |].
  apply in_or_app. left. exact H.
Qed.

Lemma upsert_name_kept (rows : list Trend) (n : string) :
  forall tbl, In n (map name tbl) -> In n (map name (upsert rows tbl)).
Proof.
  induction rows as [| r rows IH]; intros tbl H; simpl; [exact H |].
  apply IH. apply upsert1_name_kept. exact H.
Qed.

End UpsertFrame.

(** X9.  A pass deletes nothing and touches only the names it carries.  A
    stored row whose name is not in the batch is still stored, as it was;
    every name stored before is stored after; every row stored after is a
    record of the batch or an untouched row of before; and the table does
    not shrink.  Nothing is said about the order of the rows. *)
Theorem upsert_keeps_rows (tbl : Table) (batch : list Trend) :
  let tbl' := fst (reconcile tbl batch) in
  (forall x, In x tbl -> ~ In (name x) (map name batch) -> In x tbl')
  /\ (forall n, In n (map name tbl) -> In n (map name tbl'))
  /\ (forall x, In x tbl' ->
        In x batch \/ (In x tbl /\ ~ In (name x) (map name batch)))
  /\ (List.length tbl <= List.length tbl')%nat.
Proof.
  cbv zeta. unfold reconcile. cbn [fst].
  split; [| split; [| split]].
  - intros x Hx Hn. apply upsert_In_keep; assumption.
  - intros n Hn. apply upsert_name_kept. exact Hn.
  - intros x Hx. apply upsert_In_inv. exact Hx.
  - apply upsert_length.
Qed.

Lemma upsert_keeps_rows_witness :
  let old := mkTrend "7f3c" "#old" etsy (Fin 10) (Fin 12) [Fin 1; Fin 2; Fin 3]
               (Fin 1) (Fin 0) (Fin 0) (Fin 0) "2023-12-31T00:00:00.000Z" in
  In old (fst (fetchTrends (fun _ => "2024-01-01T00:00:00.000Z"%string) [old])).
Proof.
  cbv zeta. unfold fetchTrends.
  assert (E : map name (enrichAll (fun _ => "2024-01-01T00:00:00.000Z"%string) mockData)
              = ["#LEDcollars"; "#tinyhats"; "#AIstickers"]%string)
    by (vm_compute; reflexivity).
  apply (upsert_keeps_rows
           [mkTrend "7f3c" "#old" etsy (Fin 10) (Fin 12) [Fin 1; Fin 2; Fin 3]
              (Fin 1) (Fin 0) (Fin 0) (Fin 0) "2023-12-31T00:00:00.000Z"]
           (enrichAll (fun _ => "2024-01-01T00:00:00.000Z"%string) mockData)).
  - left. reflexivity.
  - rewrite E. cbn [name]. intros [H | [H | [H | []]]]; discriminate H.
Defined.

(** ** Growth of the ladder with the costs *)

Section LadderGrowth.


End LadderGrowth.



(** * Properties of the dashboard handlers *)

Section Trim.

Import Dashboard.

Lemma trim_start_nil_iff (s : jsstring) :
  trim_start s = [] <-> forallb is_space s = true.
Proof.
  induction s as [| c s IH]; simpl; [tauto |].
  destruct (is_space c); simpl; [exact IH |].
  split; discriminate.
Qed.

Lemma trim_start_idem (s : jsstring) : trim_start (trim_start s) = trim_start s.
Proof.
  induction s as [| c s IH]; simpl; [reflexivity |].
  destruct (is_space c) eqn:E; [exact IH |].
  simpl. rewrite E. reflexivity.
Qed.

Lemma forallb_rev (s : jsstring) :
  forallb is_space (rev s) = forallb is_space s.
Proof.
  destruct (forallb is_space s) eqn:E.
  - rewrite forallb_forall in *. intros c Hc. apply E. apply in_rev. exact Hc.
  - destruct (forallb is_space (rev s)) eqn:E'; [| reflexivity].
    rewrite forallb_forall in E'.
    assert (H : forallb is_space s = true).
    { apply forallb_forall. intros c Hc. apply E'. apply in_rev.
      rewrite rev_involutive. exact Hc. }
    congruence.
Qed.

(** A string trims to the empty string exactly when it has nothing but
    white space. *)
Lemma trim_nil_iff (s : jsstring) : trim s = [] <-> forallb is_space s = true.
Proof.
  unfold trim. split.
  - intros H.
    assert (H1 : trim_start (rev (trim_start s)) = []).
    { destruct (trim_start (rev (trim_start s))) as [| c r]; [reflexivity |].
      simpl in H. destruct (rev r); discriminate. }
    apply trim_start_nil_iff in H1. rewrite forallb_rev in H1.
    apply trim_start_nil_iff in H1. rewrite trim_start_idem in H1.
    apply trim_start_nil_iff. exact H1.
  - intros H. apply trim_start_nil_iff in H. rewrite H. reflexivity.
Qed.

Lemma guard_closed (s : jsstring) :
  negb (truthy (trim s)) = forallb is_space s.
Proof.
  destruct (forallb is_space s) eqn:E.
  - apply trim_nil_iff in E. rewrite E. reflexivity.
  - destruct (trim s) as [| c r] eqn:T; [| reflexivity].
    apply trim_nil_iff in T. congruence.
Qed.

(** The two branches of the guard of [handleSaveGoal]. *)
Lemma handleSaveGoal_blank (id : jsstring) (res : option Completion)
    (data : option (list Goal.t)) (st : State) :
  forallb is_space (goal st) = true ->
  handleSaveGoal id res data st = mkOutcome st [] false.
Proof.
  intros H. unfold handleSaveGoal. rewrite guard_closed, H. reflexivity.
Qed.

Lemma handleSaveGoal_typed (id : jsstring) (res : option Completion)
    (data : option (list Goal.t)) (st : State) :
  forallb is_space (goal st) = false ->
  exists rest,
    sent (handleSaveGoal id res data st)
    = InsertGoal id (goal st) (screenshots st)
      :: ChatCompletion (lit "gpt-4o-mini") (lit "user") (prompt_of (goal st)) 60
      :: rest.
Proof.
  intros H. unfold handleSaveGoal. rewrite guard_closed, H.
  destruct res as [r |]; simpl; eexists; reflexivity.
Qed.

End Trim.

(** X11.  A goal made of white space only (or empty) is not saved:
    [handleSaveGoal] sends nothing and leaves the state as it is.  Any
    other goal is inserted first, with the text as typed (not trimmed) and
    the current screenshots, and the coach is asked next with the text
    inside the prompt. *)
Theorem handleSaveGoal_guard (id : Dashboard.jsstring) (res : option Dashboard.Completion)
    (data : option (list Dashboard.Goal.t)) (st : Dashboard.State) :
  (forallb Dashboard.is_space (Dashboard.goal st) = true ->
     Dashboard.handleSaveGoal id res data st = Dashboard.mkOutcome st [] false)
  /\ (forallb Dashboard.is_space (Dashboard.goal st) = false ->
      exists rest,
        Dashboard.sent (Dashboard.handleSaveGoal id res data st)
        = Dashboard.InsertGoal id (Dashboard.goal st) (Dashboard.screenshots st)
          :: Dashboard.ChatCompletion (Dashboard.lit "gpt-4o-mini") (Dashboard.lit "user")
               (Dashboard.lit "User goal: " ++ Dashboard.goal st
                ++ Dashboard.lit ".  Give a 1-sentence motivational pep talk + 3 micro-tasks.")
               60
          :: rest).
Proof.
  unfold Dashboard.handleSaveGoal. rewrite guard_closed.
  split; intros H; rewrite H; [reflexivity |].
  destruct res as [r |]; simpl; eexists; reflexivity.
Qed.

Lemma handleSaveGoal_guard_witness :
  let blank := Dashboard.mkState (Dashboard.lit "  ") [] [] [] false [] in
  let typed := Dashboard.mkState (Dashboard.lit " $300/day ") [] [] [] false [] in
  Dashboard.handleSaveGoal (Dashboard.lit "id-1") None None blank
  = Dashboard.mkOutcome blank [] false
  /\ exists rest,
       Dashboard.sent (Dashboard.handleSaveGoal (Dashboard.lit "id-1") None None typed)
       = Dashboard.InsertGoal (Dashboard.lit "id-1") (Dashboard.lit " $300/day ") []
         :: Dashboard.ChatCompletion (Dashboard.lit "gpt-4o-mini") (Dashboard.lit "user")
              (Dashboard.lit "User goal: " ++ Dashboard.lit " $300/day "
               ++ Dashboard.lit ".  Give a 1-sentence motivational pep talk + 3 micro-tasks.")
              60
         :: rest.
Proof.
  cbv zeta. split.
  - apply (handleSaveGoal_guard (Dashboard.lit "id-1") None None
             (Dashboard.mkState (Dashboard.lit "  ") [] [] [] false [])).
    reflexivity.
  - apply (handleSaveGoal_guard (Dashboard.lit "id-1") None None
             (Dashboard.mkState (Dashboard.lit " $300/day ") [] [] [] false [])).
    reflexivity.
Defined.

(** X12.  When the completion rejects, the goal has already been inserted
    and the handler stops before the form is cleared: the state is what it
    was, and submitting again inserts the same text and screenshots a
    second time. *)
Theorem handleSaveGoal_rejected (id id' : Dashboard.jsstring)
    (data data' : option (list Dashboard.Goal.t)) (res' : option Dashboard.Completion)
    (st : Dashboard.State) :
  forallb Dashboard.is_space (Dashboard.goal st) = false ->
  let o := Dashboard.handleSaveGoal id None data st in
  Dashboard.threw o = true
  /\ Dashboard.after o = st
  /\ (exists chat, Dashboard.sent o
        = [Dashboard.InsertGoal id (Dashboard.goal st) (Dashboard.screenshots st); chat])
  /\ (exists rest,
        Dashboard.sent (Dashboard.handleSaveGoal id' res' data' (Dashboard.after o))
        = Dashboard.InsertGoal id' (Dashboard.goal st) (Dashboard.screenshots st) :: rest).
Proof.
  intros H. cbv zeta.
  assert (E : Dashboard.handleSaveGoal id None data st
              = Dashboard.mkOutcome st
                  [Dashboard.InsertGoal id (Dashboard.goal st) (Dashboard.screenshots st);
                   Dashboard.ChatCompletion (Dashboard.lit "gpt-4o-mini") (Dashboard.lit "user")
                     (Dashboard.prompt_of (Dashboard.goal st)) 60]
                  true).
  { unfold Dashboard.handleSaveGoal. rewrite guard_closed, H. reflexivity. }
  rewrite E. cbn [Dashboard.threw Dashboard.after Dashboard.sent].
  split; [reflexivity |]. split; [reflexivity |].
  split; [eexists; reflexivity |].
  destruct (handleSaveGoal_typed id' res' data' st H) as (rest & Hrest).
  eexists. exact Hrest.
Qed.

Lemma handleSaveGoal_rejected_witness :
  let st := Dashboard.mkState (Dashboard.lit "ship it") [] [] [] false [Dashboard.lit "a.png"] in
  let o := Dashboard.handleSaveGoal (Dashboard.lit "id-1") None None st in
  Dashboard.threw o = true
  /\ Dashboard.after o = st
  /\ (exists chat, Dashboard.sent o
        = [Dashboard.InsertGoal (Dashboard.lit "id-1") (Dashboard.goal st) (Dashboard.screenshots st); chat])
  /\ (exists rest,
        Dashboard.sent (Dashboard.handleSaveGoal (Dashboard.lit "id-2") None None (Dashboard.after o))
        = Dashboard.InsertGoal (Dashboard.lit "id-2") (Dashboard.goal st) (Dashboard.screenshots st) :: rest).
Proof.
  apply (handleSaveGoal_rejected (Dashboard.lit "id-1") (Dashboard.lit "id-2") None None None
           (Dashboard.mkState (Dashboard.lit "ship it") [] [] [] false [Dashboard.lit "a.png"])).
  reflexivity.
Defined.

(** X13.  When the completion answers, a goal that is not blank ends with
    the form cleared (goal and screenshots empty), the coach message set
    to the content of the first choice or to the empty string, and the
    goal list replaced by what the read returned, if it returned; three
    requests went out, and submitting the cleared form again sends
    nothing. *)
Theorem handleSaveGoal_saved (id id' : Dashboard.jsstring) (r : Dashboard.Completion)
    (data data' : option (list Dashboard.Goal.t)) (res' : option Dashboard.Completion)
    (st : Dashboard.State) :
  forallb Dashboard.is_space (Dashboard.goal st) = false ->
  let o := Dashboard.handleSaveGoal id (Some r) data st in
  Dashboard.threw o = false
  /\ Dashboard.goal (Dashboard.after o) = []
  /\ Dashboard.screenshots (Dashboard.after o) = []
  /\ Dashboard.coachMessage (Dashboard.after o) = Dashboard.first_content r
  /\ Dashboard.goals (Dashboard.after o)
     = match data with Some d => d | None => Dashboard.goals st end
  /\ Dashboard.events (Dashboard.after o) = Dashboard.events st
  /\ Dashboard.uploading (Dashboard.after o) = Dashboard.uploading st
  /\ List.length (Dashboard.sent o) = 3%nat
  /\ Dashboard.sent (Dashboard.handleSaveGoal id' res' data' (Dashboard.after o)) = [].
Proof.
  intros H. cbv zeta.
  set (st1 := Dashboard.setScreenshots []
                (Dashboard.setGoal [] (Dashboard.setCoachMessage (Dashboard.first_content r) st))).
  assert (E : Dashboard.handleSaveGoal id (Some r) data st
              = Dashboard.mkOutcome
                  (match data with Some d => Dashboard.setGoals d st1 | None => st1 end)
                  [Dashboard.InsertGoal id (Dashboard.goal st) (Dashboard.screenshots st);
                   Dashboard.ChatCompletion (Dashboard.lit "gpt-4o-mini") (Dashboard.lit "user")
                     (Dashboard.prompt_of (Dashboard.goal st)) 60;
                   Dashboard.SelectGoals]
                  false).
  { unfold Dashboard.handleSaveGoal. rewrite guard_closed, H. reflexivity. }
  rewrite E. cbn [Dashboard.threw Dashboard.after Dashboard.sent].
  assert (Hcleared : Dashboard.goal
                       (match data with Some d => Dashboard.setGoals d st1 | None => st1 end) = [])
    by (destruct data; reflexivity).
  repeat (split; [destruct data; reflexivity |]).
  rewrite (handleSaveGoal_blank id' res' data'
             (match data with Some d => Dashboard.setGoals d st1 | None => st1 end));
    [reflexivity |].
  rewrite Hcleared. reflexivity.
Qed.

Lemma handleSaveGoal_saved_witness :
  let st := Dashboard.mkState (Dashboard.lit "ship it") [] [] [] false [Dashboard.lit "a.png"] in
  let r := Dashboard.Build_Completion
             [Dashboard.Build_Choice (Some (Dashboard.Build_Message (Some (Dashboard.lit "Go!"))))] in
  let o := Dashboard.handleSaveGoal (Dashboard.lit "id-1") (Some r) None st in
  Dashboard.goal (Dashboard.after o) = []
  /\ Dashboard.screenshots (Dashboard.after o) = []
  /\ Dashboard.coachMessage (Dashboard.after o) = Dashboard.lit "Go!"
  /\ Dashboard.sent (Dashboard.handleSaveGoal (Dashboard.lit "id-2") None None (Dashboard.after o)) = [].
Proof.
  pose proof (handleSaveGoal_saved (Dashboard.lit "id-1") (Dashboard.lit "id-2")
                (Dashboard.Build_Completion
                   [Dashboard.Build_Choice (Some (Dashboard.Build_Message (Some (Dashboard.lit "Go!"))))])
                None None None
                (Dashboard.mkState (Dashboard.lit "ship it") [] [] [] false [Dashboard.lit "a.png"])
                eq_refl) as (_ & H1 & H2 & H3 & _ & _ & _ & _ & H4).
  cbv zeta. split; [exact H1 |]. split; [exact H2 |]. split; [exact H3 | exact H4].
Defined.

Section Upload.

Import Dashboard.

Variables (uuids : nat -> jsstring) (answer : nat -> option jsstring).

Lemma upload_from_spec (files : list File) :
  forall i urls out,
    upload_from uuids answer i files urls out
    = (urls ++ successes answer i (List.length files),
       out ++ upload_requests uuids i files).
Proof.
  induction files as [| f files IH]; intros i urls out; simpl.
  - rewrite !app_nil_r. reflexivity.
  - rewrite IH. destruct (answer i) as [path |]; rewrite <- !app_assoc; reflexivity.
Qed.

Lemma successes_length (n : nat) :
  forall i, (List.length (successes answer i n) <= n)%nat.
Proof.
  induction n as [| n IH]; intros i; simpl; [lia |].
  destruct (answer i); simpl; specialize (IH (S i)); lia.
Qed.

Lemma successes_none (n : nat) :
  forall i, (forall k, (i <= k < i + n)%nat -> answer k = None) ->
            successes answer i n = [].
Proof.
  induction n as [| n IH]; intros i H; simpl; [reflexivity |].
  rewrite (H i) by lia. apply IH. intros k Hk. apply H. lia.
Qed.

Lemma successes_In (n : nat) :
  forall i path, In path (successes answer i n) <->
                 exists k, (i <= k < i + n)%nat /\ answer k = Some path.
Proof.
  induction n as [| n IH]; intros i path; simpl.
  - split; [intros [] | intros (k & Hk & _); lia].
  - destruct (answer i) as [p |] eqn:E; simpl; rewrite IH; split.
    + intros [<- | (k & Hk & Ha)]; [exists i; split; [lia | exact E] |].
      exists k. split; [lia | exact Ha].
    + intros (k & Hk & Ha).
      destruct (Nat.eq_dec k i) as [-> | Hne]; [left; congruence |].
      right. exists k. split; [lia | exact Ha].
    + intros (k & Hk & Ha). exists k. split; [lia | exact Ha].
    + intros (k & Hk & Ha).
      destruct (Nat.eq_dec k i) as [-> | Hne]; [congruence |].
      exists k. split; [lia | exact Ha].
Qed.

Lemma upload_requests_nth (files : list File) :
  forall i k f, nth_error files k = Some f ->
    nth_error (upload_requests uuids i files) k = Some (UploadScreenshot (uuids (i + k)%nat) f).
Proof.
  induction files as [| f0 files IH]; intros i k f H; [destruct k; discriminate |].
  destruct k as [| k]; simpl in *.
  - injection H as <-. rewrite Nat.add_0_r. reflexivity.
  - rewrite (IH (S i) k f H). rewrite Nat.add_succ_r. reflexivity.
Qed.

Lemma upload_requests_length (files : list File) :
  forall i, List.length (upload_requests uuids i files) = List.length files.
Proof.
  induction files as [| f files IH]; intros i; simpl; [reflexivity |].
  rewrite IH. reflexivity.
Qed.

End Upload.

(** X14.  [handleFileUpload] tries every picked file, one upload per file
    in order, and a failed upload does not stop the loop.  The screenshots
    of the state become the paths of the uploads that succeeded, in the
    order of the files, in place of whatever was there before; uploads
    that fail are left out without a trace, so all of them failing (or no
    file picked) empties the list.  With no file list at all the handler
    does nothing. *)
Theorem handleFileUpload_keeps_successes (files : list Dashboard.File)
    (uuids : nat -> Dashboard.jsstring) (answer : nat -> option Dashboard.jsstring)
    (st : Dashboard.State) :
  let o := Dashboard.handleFileUpload (Some files) uuids answer st in
  Dashboard.screenshots (Dashboard.after o)
  = Dashboard.successes answer 0 (List.length files)
  /\ (forall path, In path (Dashboard.screenshots (Dashboard.after o)) <->
        exists k, (k < List.length files)%nat /\ answer k = Some path)
  /\ (List.length (Dashboard.screenshots (Dashboard.after o)) <= List.length files)%nat
  /\ ((forall k, (k < List.length files)%nat -> answer k = None) ->
        Dashboard.screenshots (Dashboard.after o) = [])
  /\ List.length (Dashboard.sent o) = List.length files
  /\ (forall k f, nth_error files k = Some f ->
        nth_error (Dashboard.sent o) k = Some (Dashboard.UploadScreenshot (uuids k) f))
  /\ Dashboard.uploading (Dashboard.after o) = false
  /\ Dashboard.threw o = false
  /\ Dashboard.handleFileUpload None uuids answer st = Dashboard.mkOutcome st [] false.
Proof.
  cbv zeta. unfold Dashboard.handleFileUpload.
  rewrite upload_from_spec. cbn [app Dashboard.after Dashboard.sent Dashboard.threw].
  cbn [Dashboard.screenshots Dashboard.setUploading Dashboard.setScreenshots Dashboard.uploading].
  split; [reflexivity |]. split; [| split; [| split; [| split; [| split]]]].
  - intros path. rewrite successes_In. split; intros (k & Hk & Ha); exists k; split; lia || exact Ha.
  - apply successes_length.
  - intros H. apply successes_none. intros k Hk. apply H. lia.
  - apply upload_requests_length.
  - intros k f H. exact (upload_requests_nth uuids files 0 k f H).
  - repeat split.
Qed.

Lemma handleFileUpload_keeps_successes_witness :
  let files := [[1%N]; [2%N]; [3%N]] in
  let answer := fun k : nat =>
    match k with
    | 1%nat => None
    | _ => Some (Dashboard.lit "shot")
    end in
  let st := Dashboard.mkState [] [] [] [] false [Dashboard.lit "old"] in
  Dashboard.screenshots
    (Dashboard.after (Dashboard.handleFileUpload (Some files) (fun _ => Dashboard.lit "uuid") answer st))
  = [Dashboard.lit "shot"; Dashboard.lit "shot"].
Proof.
  cbv zeta.
  apply (handleFileUpload_keeps_successes [[1%N]; [2%N]; [3%N]]
           (fun _ => Dashboard.lit "uuid")
           (fun k : nat => match k with 1%nat => None | _ => Some (Dashboard.lit "shot") end)
           (Dashboard.mkState [] [] [] [] false [Dashboard.lit "old"])).
Defined.
